(** * Buffer pool of db_445: LRU replacer, buffer pool manager instance,
      parallel buffer pool manager

    A shallow embedding of
      - src/buffer/lru_replacer.cpp            (module [LRUReplacer]),
      - src/buffer/buffer_pool_manager_instance.cpp, first revision in the
        file                                   (module [BufferPoolManagerInstance]),
        second revision                        (module [InstanceVariant]),
      - parallel_buffer_pool_manager.cpp, first revision in the file
                                               (module [ParallelBufferPoolManager]),
        second revision                        (module [ParallelVariant]).

    Conventions.
      - [page_id_t] and [frame_id_t] are C++ [int]s and are integers [Z] here.
        Arithmetic whose overflow is defined in C++ (the page id counter, which
        is advanced by the unsigned [num_instances_]) is written with its
        wrap-around; [pin_count_] is a plain [int] whose overflow is undefined
        behaviour, so pin counts are integers and executions that overflow them
        are outside the model.
      - [size_t] quantities (pool size, capacity, number of instances) are [nat].
      - member functions take the object as an explicit state and return the
        result together with the new state; a [nullptr] result is [None].
      - the mutexes are not modelled: every member function runs under the
        latch of its object, so a call is one atomic step. *)

From Stdlib Require Import ZArith List Bool Lia.
From stdpp Require Import base option list gmap.

Open Scope Z_scope.

(** ** Integer types *)

Definition page_id_t := Z.
Definition frame_id_t := Z.

Definition INT32_MAX : Z := 2147483647.

(** Conversion of an integer to a 32-bit signed [int] (two's complement). *)
Definition wrap32 (z : Z) : Z := (z + 2 ^ 31) mod 2 ^ 32 - 2 ^ 31.

(** Conversion to [uint32_t] and to a 64-bit [size_t]. *)
Definition to_uint32 (z : Z) : Z := z mod 2 ^ 32.
Definition to_size_t (z : Z) : Z := z mod 2 ^ 64.

(** Modelled from the spec: [INVALID_PAGE_ID] of common/config.h, which is not
    among the sources; the spec calls it the "none" page identity of a free
    frame. The value follows the sentinel [-1] used for the list nodes. *)
Definition INVALID_PAGE_ID : page_id_t := -1.

(** Modelled from the spec: the page size constant of common/config.h ("a
    fixed-size byte buffer, e.g. 4096 bytes"). *)
Definition PAGE_SIZE : nat := 4096.

(** ** LRU replacer (src/buffer/lru_replacer.cpp) *)

Module LRUReplacer.

(** The replacer is a doubly linked list of nodes between the sentinels
    [head_] and [tail_], and the index [cache_] from a frame id to its node.
    [nodes] is the sequence of the nodes' values from [head_->next_] to
    [tail_->prev_]: the front is the most recently added frame. [cache_] has
    exactly the values of the list as keys, so [cache_.count] is membership
    and [cache_.size] is the length. *)
Record t := mk { capacity_ : nat; nodes : list frame_id_t }.

Definition LRUReplacer (num_pages : nat) : t := mk num_pages [].

Definition cache_count (r : t) (frame_id : frame_id_t) : bool :=
  bool_decide (frame_id ∈ nodes r).

Definition Size (r : t) : nat := length (nodes r).

(** [AddToFirst]: link the node right after [head_]. *)
Definition AddToFirst (frame_id : frame_id_t) (l : list frame_id_t) :=
  frame_id :: l.

(** [RemoveOne]: unlink the node of [frame_id]. *)
Fixpoint RemoveOne (frame_id : frame_id_t) (l : list frame_id_t) :=
  match l with
  | [] => []
  | x :: l' => if decide (x = frame_id) then l' else x :: RemoveOne frame_id l'
  end.

(** [RemoveLast]: unlink [tail_->prev_] and return it. On an empty list the
    source unlinks the head sentinel, which dereferences a null pointer; the
    model returns no node. *)
Definition RemoveLast (l : list frame_id_t) : option frame_id_t * list frame_id_t :=
  (last l, removelast l).

Definition Victim (r : t) : option frame_id_t * t :=
  match nodes r with
  | [] => (None, r)
  | _ => let '(lst, l') := RemoveLast (nodes r) in (lst, mk (capacity_ r) l')
  end.

Definition Pin (r : t) (frame_id : frame_id_t) : t :=
  if cache_count r frame_id
  then mk (capacity_ r) (RemoveOne frame_id (nodes r))
  else r.

Definition Unpin (r : t) (frame_id : frame_id_t) : t :=
  if cache_count r frame_id then r
  else if (capacity_ r <=? Size r)%nat
       then mk (capacity_ r) (AddToFirst frame_id (snd (RemoveLast (nodes r))))
       else mk (capacity_ r) (AddToFirst frame_id (nodes r)).

(** Representation invariant: a frame has at most one node. *)
Definition wf (r : t) : Prop := NoDup (nodes r).

Definition tracked (r : t) (frame_id : frame_id_t) : Prop := frame_id ∈ nodes r.

End LRUReplacer.

(** ** Pages and the disk collaborator *)

(** Modelled from the spec: the [Page] class of storage/page/page.h, which is
    not among the sources: "a fixed-size memory slot plus metadata (resident
    page identifier, pin count, dirty flag)". A default-constructed page holds
    zero bytes, no page, pin count 0 and a clear dirty flag; [ResetMemory]
    zeroes the bytes and leaves the metadata, which is why the callers below
    assign the metadata themselves after calling it. *)
Record Page := mkPage {
  data_ : list Byte.byte;
  page_id_ : page_id_t;
  pin_count_ : Z;
  is_dirty_ : bool
}.

Definition zero_data : list Byte.byte := replicate PAGE_SIZE Byte.x00.

Definition new_Page : Page := mkPage zero_data INVALID_PAGE_ID 0 false.

Definition ResetMemory (p : Page) : Page :=
  mkPage zero_data (page_id_ p) (pin_count_ p) (is_dirty_ p).

(** Modelled from the spec: the disk collaborator (storage/disk/disk_manager.h
    is not among the sources). [WritePage] persists the bytes of a page,
    [ReadPage] returns the persisted bytes (the spec leaves the bytes of a page
    never written undefined; the model returns zero bytes), and a deallocation
    is only recorded. [write_log] lists the calls of [WritePage], the latest
    first. *)
Record DiskManager := mkDisk {
  disk_pages : gmap Z (list Byte.byte);
  write_log : list (page_id_t * list Byte.byte);
  dealloc_log : list page_id_t
}.

Definition new_DiskManager : DiskManager := mkDisk ∅ [] [].

Definition WritePage (d : DiskManager) (page_id : page_id_t) (data : list Byte.byte) :=
  mkDisk (<[page_id := data]> (disk_pages d)) ((page_id, data) :: write_log d)
         (dealloc_log d).

Definition ReadPage (d : DiskManager) (page_id : page_id_t) : list Byte.byte :=
  default zero_data (disk_pages d !! page_id).

Definition DeallocatePage (d : DiskManager) (page_id : page_id_t) :=
  mkDisk (disk_pages d) (write_log d) (page_id :: dealloc_log d).

(** The frame array [pages_], indexed by a [frame_id_t]. An index outside the
    array is undefined behaviour in the source; the model reads a blank page
    there and ignores a write. *)
Definition page_at (pages : list Page) (frame_id : frame_id_t) : option Page :=
  if decide (0 ≤ frame_id) then pages !! Z.to_nat frame_id else None.

Definition get_page (pages : list Page) (frame_id : frame_id_t) : Page :=
  default new_Page (page_at pages frame_id).

Definition set_page (pages : list Page) (frame_id : frame_id_t) (p : Page) :=
  if decide (0 ≤ frame_id) then <[Z.to_nat frame_id := p]> pages else pages.

(** ** The buffer pool manager interface (buffer/buffer_pool_manager.h)

    The public operations of a buffer pool manager; the instance and the
    parallel manager both implement it through their [...Imp] functions. A
    returned [Page *] is a handle of type [H]. *)
Class BufferPoolManager (M H : Type) := {
  FetchPage : M → page_id_t → option H * M;
  NewPage : M → option (page_id_t * H) * M;
  UnpinPage : M → page_id_t → bool → bool * M;
  DeletePage : M → page_id_t → bool * M;
  FlushPage : M → page_id_t → bool * M;
  FlushAllPages : M → M;
  GetPoolSize : M → nat
}.

(** ** Buffer pool manager instance
       (buffer_pool_manager_instance.cpp, lines 1-263) *)

Module BufferPoolManagerInstance.

Record t := mk {
  pool_size_ : nat;
  num_instances_ : Z;
  instance_index_ : Z;
  next_page_id_ : page_id_t;
  pages_ : list Page;
  page_table_ : gmap Z frame_id_t;
  free_list_ : list frame_id_t;
  replacer_ : LRUReplacer.t;
  disk_manager_ : DiskManager
}.

Definition with_next_page_id (s : t) (n : page_id_t) : t :=
  mk (pool_size_ s) (num_instances_ s) (instance_index_ s) n (pages_ s)
     (page_table_ s) (free_list_ s) (replacer_ s) (disk_manager_ s).
Definition with_pages (s : t) (ps : list Page) : t :=
  mk (pool_size_ s) (num_instances_ s) (instance_index_ s) (next_page_id_ s) ps
     (page_table_ s) (free_list_ s) (replacer_ s) (disk_manager_ s).
Definition with_page_table (s : t) (pt : gmap Z frame_id_t) : t :=
  mk (pool_size_ s) (num_instances_ s) (instance_index_ s) (next_page_id_ s)
     (pages_ s) pt (free_list_ s) (replacer_ s) (disk_manager_ s).
Definition with_free_list (s : t) (fl : list frame_id_t) : t :=
  mk (pool_size_ s) (num_instances_ s) (instance_index_ s) (next_page_id_ s)
     (pages_ s) (page_table_ s) fl (replacer_ s) (disk_manager_ s).
Definition with_replacer (s : t) (r : LRUReplacer.t) : t :=
  mk (pool_size_ s) (num_instances_ s) (instance_index_ s) (next_page_id_ s)
     (pages_ s) (page_table_ s) (free_list_ s) r (disk_manager_ s).
Definition with_disk (s : t) (d : DiskManager) : t :=
  mk (pool_size_ s) (num_instances_ s) (instance_index_ s) (next_page_id_ s)
     (pages_ s) (page_table_ s) (free_list_ s) (replacer_ s) d.

(** The constructor, over a given disk. Its two assertions,
    [num_instances > 0] and [instance_index < num_instances], are the
    hypotheses of the theorems on fresh instances. The frames [0 .. pool_size)
    are all in the free list. *)
Definition BufferPoolManagerInstance (pool_size : nat)
    (num_instances instance_index : Z) (disk_manager : DiskManager) : t :=
  mk pool_size num_instances instance_index (wrap32 instance_index)
     (replicate pool_size new_Page) ∅
     (Z.of_nat <$> seq 0 pool_size)
     (LRUReplacer.LRUReplacer pool_size) disk_manager.

(** [ValidatePageId]: the condition of the assertion. [page_id] is an [int]
    and [num_instances_] a [uint32_t], so the remainder is taken after
    converting [page_id] to [uint32_t]. *)
Definition ValidatePageId (s : t) (page_id : page_id_t) : bool :=
  bool_decide (to_uint32 page_id mod num_instances_ s = instance_index_ s).

(** [AllocatePage]: returns the counter and advances it by [num_instances_];
    the sum is converted back to the 32-bit [page_id_t]. The assertion of
    [ValidatePageId] is a check and changes no state; [AllocatePage_valid]
    below shows when it holds. *)
Definition AllocatePage (s : t) : page_id_t * t :=
  (next_page_id_ s,
   with_next_page_id s (wrap32 (next_page_id_ s + num_instances_ s))).

(** Lines 101-107 of [NewPgImp] and 160-167 of [FetchPgImp]: take the front
    of the free list, else a victim of the replacer, else fail. *)
Definition pick_frame (s : t) : option (frame_id_t * t) :=
  match free_list_ s with
  | frame_id :: rest => Some (frame_id, with_free_list s rest)
  | [] =>
      match LRUReplacer.Victim (replacer_ s) with
      | (Some frame_id, r) => Some (frame_id, with_replacer s r)
      | (None, _) => None
      end
  end.

(** Write the frame back if it is dirty (lines 113-118 and 171-176). *)
Definition write_back (s : t) (frame_id : frame_id_t) : t :=
  let ret := get_page (pages_ s) frame_id in
  if is_dirty_ ret
  then with_pages
         (with_disk s (WritePage (disk_manager_ s) (page_id_ ret) (data_ ret)))
         (set_page (pages_ s) frame_id
            (mkPage (data_ ret) (page_id_ ret) (pin_count_ ret) false))
  else s.

Definition NewPgImp (s : t) : option (page_id_t * frame_id_t) * t :=
  match pick_frame s with
  | None => (None, s)
  | Some (frame_id, s) =>
      let '(new_page_id, s) := AllocatePage s in
      let s := write_back s frame_id in
      let ret := get_page (pages_ s) frame_id in
      let s := with_page_table s
                 (<[new_page_id := frame_id]> (delete (page_id_ ret) (page_table_ s))) in
      let s := with_pages s
                 (set_page (pages_ s) frame_id (mkPage zero_data new_page_id 1 false)) in
      (Some (new_page_id, frame_id), s)
  end.

Definition FetchPgImp (s : t) (page_id : page_id_t) : option frame_id_t * t :=
  match page_table_ s !! page_id with
  | Some frame_id =>
      let ret := get_page (pages_ s) frame_id in
      let s := with_replacer s (LRUReplacer.Pin (replacer_ s) frame_id) in
      let s := with_pages s
                 (set_page (pages_ s) frame_id
                    (mkPage (data_ ret) (page_id_ ret) (pin_count_ ret + 1) (is_dirty_ ret))) in
      (Some frame_id, s)
  | None =>
      match pick_frame s with
      | None => (None, s)
      | Some (frame_id, s) =>
          let s := write_back s frame_id in
          let ret := get_page (pages_ s) frame_id in
          let s := with_page_table s
                     (<[page_id := frame_id]> (delete (page_id_ ret) (page_table_ s))) in
          let s := with_pages s
                     (set_page (pages_ s) frame_id
                        (mkPage (ReadPage (disk_manager_ s) page_id) page_id 1 false)) in
          (Some frame_id, s)
      end
  end.

Definition DeletePgImp (s : t) (page_id : page_id_t) : bool * t :=
  let s := with_disk s (DeallocatePage (disk_manager_ s) page_id) in
  match page_table_ s !! page_id with
  | None => (true, s)
  | Some frame_id =>
      let p := get_page (pages_ s) frame_id in
      if 0 <? pin_count_ p then (false, s)
      else
        let s := with_page_table s (delete page_id (page_table_ s)) in
        let s := with_replacer s (LRUReplacer.Pin (replacer_ s) frame_id) in
        let s := with_pages s
                   (set_page (pages_ s) frame_id
                      (mkPage zero_data (page_id_ p) (pin_count_ p) false)) in
        let s := with_free_list s (free_list_ s ++ [frame_id]) in
        (true, s)
  end.

Definition UnpinPgImp (s : t) (page_id : page_id_t) (is_dirty : bool) : bool * t :=
  match page_table_ s !! page_id with
  | None => (false, s)
  | Some frame_id =>
      let p := get_page (pages_ s) frame_id in
      let p := mkPage (data_ p) (page_id_ p) (pin_count_ p) (is_dirty_ p || is_dirty) in
      let s := with_pages s (set_page (pages_ s) frame_id p) in
      if pin_count_ p <=? 0 then (false, s)
      else
        let p := mkPage (data_ p) (page_id_ p) (pin_count_ p - 1) (is_dirty_ p) in
        let s := with_pages s (set_page (pages_ s) frame_id p) in
        if pin_count_ p =? 0
        then (true, with_replacer s (LRUReplacer.Unpin (replacer_ s) frame_id))
        else (true, s)
  end.

Definition FlushPgImp (s : t) (page_id : page_id_t) : bool * t :=
  match page_table_ s !! page_id with
  | None => (false, s)
  | Some frame_id =>
      let page := get_page (pages_ s) frame_id in
      if is_dirty_ page
      then (true,
            with_pages
              (with_disk s (WritePage (disk_manager_ s) page_id (data_ page)))
              (set_page (pages_ s) frame_id
                 (mkPage (data_ page) (page_id_ page) (pin_count_ page) false)))
      else (true, s)
  end.

(** The loop of [FlushAllPgsImp] over the frames [0 .. pool_size_). *)
Definition FlushAllPgsImp (s : t) : t :=
  foldl (λ s i, write_back s (Z.of_nat i)) s (seq 0 (pool_size_ s)).

(** The instance implements the interface; [GetPoolSize] returns
    [pool_size_]. *)
#[global] Instance bpm : BufferPoolManager t frame_id_t := {
  FetchPage := FetchPgImp;
  NewPage := NewPgImp;
  UnpinPage := UnpinPgImp;
  DeletePage := DeletePgImp;
  FlushPage := FlushPgImp;
  FlushAllPages := FlushAllPgsImp;
  GetPoolSize := pool_size_
}.

End BufferPoolManagerInstance.

(** ** Buffer pool manager instance, second revision
       (buffer_pool_manager_instance.cpp, lines 264-508)

    The same class and the same state; only the functions that differ from the
    first revision and that the theorems refer to are given. *)

Module InstanceVariant.
Import BufferPoolManagerInstance.

Definition tryGetPageFromFreeListOrLRU (s : t) : option (frame_id_t * t) :=
  match free_list_ s with
  | frame_id :: rest => Some (frame_id, with_free_list s rest)
  | [] =>
      if (LRUReplacer.Size (replacer_ s) =? 0)%nat then None
      else
        let '(victim, r) := LRUReplacer.Victim (replacer_ s) in
        match victim with
        | Some frame_id => Some (frame_id, with_replacer s r)
        | None => None
        end
  end.

(** [AllocatePage] is called before a frame is looked for. *)
Definition NewPgImp (s : t) : option (page_id_t * frame_id_t) * t :=
  let '(new_page_id, s) := AllocatePage s in
  match tryGetPageFromFreeListOrLRU s with
  | None => (None, s)
  | Some (frame_id, s) =>
      let ret := get_page (pages_ s) frame_id in
      let s := if is_dirty_ ret
               then with_disk s (WritePage (disk_manager_ s) (page_id_ ret) (data_ ret))
               else s in
      let s := with_page_table s
                 (<[new_page_id := frame_id]> (delete (page_id_ ret) (page_table_ s))) in
      let s := with_pages s
                 (set_page (pages_ s) frame_id (mkPage zero_data new_page_id 1 false)) in
      (Some (new_page_id, frame_id), s)
  end.

(** A resident page is returned as it is: no pin, no call of the replacer. *)
Definition FetchPgImp (s : t) (page_id : page_id_t) : option frame_id_t * t :=
  match page_table_ s !! page_id with
  | Some frame_id => (Some frame_id, s)
  | None =>
      match tryGetPageFromFreeListOrLRU s with
      | None => (None, s)
      | Some (frame_id, s) =>
          let ret := get_page (pages_ s) frame_id in
          let s := if is_dirty_ ret
                   then with_disk s (WritePage (disk_manager_ s) (page_id_ ret) (data_ ret))
                   else s in
          let s := with_page_table s
                     (<[page_id := frame_id]> (delete (page_id_ ret) (page_table_ s))) in
          let s := with_pages s
                     (set_page (pages_ s) frame_id
                        (mkPage (ReadPage (disk_manager_ s) page_id) page_id 1 false)) in
          (Some frame_id, s)
      end
  end.

Definition DeletePgImp (s : t) (page_id : page_id_t) : bool * t :=
  let s := with_disk s (DeallocatePage (disk_manager_ s) page_id) in
  match page_table_ s !! page_id with
  | None => (true, s)
  | Some frame_id =>
      let p := get_page (pages_ s) frame_id in
      if 0 <? pin_count_ p then (false, s)
      else
        let s := with_page_table s (delete page_id (page_table_ s)) in
        let s := with_pages s (set_page (pages_ s) frame_id (ResetMemory p)) in
        let s := with_free_list s (free_list_ s ++ [frame_id]) in
        (true, s)
  end.

(** The dirty flag is assigned, not ORed. *)
Definition UnpinPgImp (s : t) (page_id : page_id_t) (is_dirty : bool) : bool * t :=
  match page_table_ s !! page_id with
  | None => (false, s)
  | Some frame_id =>
      let p := get_page (pages_ s) frame_id in
      let p := mkPage (data_ p) (page_id_ p) (pin_count_ p) is_dirty in
      let s := with_pages s (set_page (pages_ s) frame_id p) in
      if pin_count_ p <=? 0 then (false, s)
      else
        let p := mkPage (data_ p) (page_id_ p) (pin_count_ p - 1) (is_dirty_ p) in
        let s := with_pages s (set_page (pages_ s) frame_id p) in
        if pin_count_ p =? 0
        then (true, with_replacer s (LRUReplacer.Unpin (replacer_ s) frame_id))
        else (true, s)
  end.

End InstanceVariant.

(** ** Parallel buffer pool manager
       (parallel_buffer_pool_manager.cpp, lines 509-611)

    The manager owns the instances; a page handle is the index of the
    instance together with the handle of the instance. The instances share
    one disk manager in the source; here each instance carries the disk
    state of its own calls, which is enough for the operations below, none of
    which reads what another instance wrote. *)

Module ParallelBufferPoolManager.
Section with_instances.
Context {I H : Type} `{!BufferPoolManager I H}.

Record t := mk { instances_ : list I; startIdx : nat }.

Definition with_instance (m : t) (index : nat) (bfi : I) : t :=
  mk (<[index := bfi]> (instances_ m)) (startIdx m).

Definition GetPoolSizeImp (m : t) : nat := length (instances_ m).

(** [GetBufferPoolManager]: [page_id % instances_.size()], computed in
    [size_t]. There is no instance to return when there are none (the source
    divides by zero). *)
Definition GetBufferPoolManager (m : t) (page_id : page_id_t) : nat :=
  Z.to_nat (to_size_t page_id mod Z.of_nat (length (instances_ m))).

(** Route a call to the instance of the page id. *)
Definition routed {R : Type} (call : I → R * I) (failure : R)
    (m : t) (page_id : page_id_t) : R * t :=
  let idx := GetBufferPoolManager m page_id in
  match instances_ m !! idx with
  | Some bfi => let '(r, bfi) := call bfi in (r, with_instance m idx bfi)
  | None => (failure, m)
  end.

Definition FetchPgImp (m : t) (page_id : page_id_t) : option (nat * H) * t :=
  let idx := GetBufferPoolManager m page_id in
  routed (λ bfi, let '(r, bfi) := FetchPage bfi page_id in (pair idx <$> r, bfi))
         None m page_id.

Definition UnpinPgImp (m : t) (page_id : page_id_t) (is_dirty : bool) : bool * t :=
  routed (λ bfi, UnpinPage bfi page_id is_dirty) false m page_id.

Definition FlushPgImp (m : t) (page_id : page_id_t) : bool * t :=
  routed (λ bfi, FlushPage bfi page_id) false m page_id.

Definition DeletePgImp (m : t) (page_id : page_id_t) : bool * t :=
  routed (λ bfi, DeletePage bfi page_id) false m page_id.

(** The loop of [NewPgImp]: [index] runs from [startIdx] up to
    [instances_.size()]; [fuel] bounds the number of iterations and the loop
    ends when [index] is no instance. [startIdx] is stored only when an
    instance returned a page. *)
Fixpoint NewPg_loop (fuel index : nat) (m : t) : option (page_id_t * (nat * H)) * t :=
  match fuel with
  | O => (None, m)
  | S fuel =>
      match instances_ m !! index with
      | None => (None, m)
      | Some bfi =>
          let '(page, bfi) := NewPage bfi in
          let m := with_instance m index bfi in
          match page with
          | Some (page_id, h) =>
              (Some (page_id, (index, h)),
               mk (instances_ m) ((startIdx m + 1) mod length (instances_ m))%nat)
          | None => NewPg_loop fuel (S index) m
          end
      end
  end.

Definition NewPgImp (m : t) : option (page_id_t * (nat * H)) * t :=
  NewPg_loop (length (instances_ m)) (startIdx m) m.

Definition FlushAllPgsImp (m : t) : t :=
  mk (FlushAllPages <$> instances_ m) (startIdx m).

#[global] Instance bpm : BufferPoolManager t (nat * H) := {
  FetchPage := FetchPgImp;
  NewPage := NewPgImp;
  UnpinPage := UnpinPgImp;
  DeletePage := DeletePgImp;
  FlushPage := FlushPgImp;
  FlushAllPages := FlushAllPgsImp;
  GetPoolSize := GetPoolSizeImp
}.

End with_instances.
Arguments t I : clear implicits.

(** The constructor: [num_instances] instances of [pool_size] frames each,
    instance [i] with index [i]. *)
Definition ParallelBufferPoolManager (num_instances pool_size : nat)
    (disk_manager : DiskManager) : t BufferPoolManagerInstance.t :=
  mk ((λ i, BufferPoolManagerInstance.BufferPoolManagerInstance pool_size
              (Z.of_nat num_instances) (Z.of_nat i) disk_manager)
        <$> seq 0 num_instances)
     0.

End ParallelBufferPoolManager.

(** ** Parallel buffer pool manager, second revision
       (parallel_buffer_pool_manager.cpp, lines 612-713) *)

Module ParallelVariant.
Section with_instances.
Context {I H : Type} `{!BufferPoolManager I H}.

Record t := mk {
  instances_ : list I;
  next_index_ : nat;
  each_pool_size_ : nat;
  num_instance_ : nat
}.

Definition with_instance (m : t) (index : nat) (bfi : I) : t :=
  mk (<[index := bfi]> (instances_ m)) (next_index_ m) (each_pool_size_ m)
     (num_instance_ m).

Definition with_next_index (m : t) (index : nat) : t :=
  mk (instances_ m) index (each_pool_size_ m) (num_instance_ m).

Definition GetPoolSizeImp (m : t) : nat :=
  (length (instances_ m) * each_pool_size_ m)%nat.

(** The loop of [NewPgImp]: [num_instance_] iterations, each of which calls
    the instance at [next_index_] and then advances [next_index_]. *)
Fixpoint NewPg_loop (n : nat) (m : t) : option (page_id_t * (nat * H)) * t :=
  match n with
  | O => (None, m)
  | S n =>
      match instances_ m !! next_index_ m with
      | None => (None, m)
      | Some bfi =>
          let index := next_index_ m in
          let '(page, bfi) := NewPage bfi in
          let m := with_instance m index bfi in
          let m := with_next_index m ((next_index_ m + 1) mod num_instance_ m)%nat in
          match page with
          | Some (page_id, h) => (Some (page_id, (index, h)), m)
          | None => NewPg_loop n m
          end
      end
  end.

Definition NewPgImp (m : t) : option (page_id_t * (nat * H)) * t :=
  NewPg_loop (num_instance_ m) m.

End with_instances.
Arguments t I : clear implicits.

Definition ParallelBufferPoolManager (num_instances pool_size : nat)
    (disk_manager : DiskManager) : t BufferPoolManagerInstance.t :=
  mk ((λ i, BufferPoolManagerInstance.BufferPoolManagerInstance pool_size
              (Z.of_nat num_instances) (Z.of_nat i) disk_manager)
        <$> seq 0 num_instances)
     0 pool_size num_instances.

End ParallelVariant.

(** ** Runs of public operations *)

Inductive op :=
  | OpFetch (page_id : page_id_t)
  | OpNewPage
  | OpUnpin (page_id : page_id_t) (is_dirty : bool)
  | OpDelete (page_id : page_id_t)
  | OpFlush (page_id : page_id_t)
  | OpFlushAll.

(** The result of an operation, with handles of type [H]. *)
Inductive ret (H : Type) :=
  | RetPage (r : option H)
  | RetNewPage (r : option (page_id_t * H))
  | RetBool (b : bool)
  | RetVoid.
Arguments RetPage {H} r.
Arguments RetNewPage {H} r.
Arguments RetBool {H} b.
Arguments RetVoid {H}.

Section runs.
Context {M H : Type} `{!BufferPoolManager M H}.

Definition step (s : M) (o : op) : ret H * M :=
  match o with
  | OpFetch page_id => let '(r, s) := FetchPage s page_id in (RetPage r, s)
  | OpNewPage => let '(r, s) := NewPage s in (RetNewPage r, s)
  | OpUnpin page_id is_dirty =>
      let '(b, s) := UnpinPage s page_id is_dirty in (RetBool b, s)
  | OpDelete page_id => let '(b, s) := DeletePage s page_id in (RetBool b, s)
  | OpFlush page_id => let '(b, s) := FlushPage s page_id in (RetBool b, s)
  | OpFlushAll => (RetVoid, FlushAllPages s)
  end.

(** [run s ops]: the results of the operations, in order, and the final
    state. *)
Fixpoint run (s : M) (ops : list op) : list (ret H) * M :=
  match ops with
  | [] => ([], s)
  | o :: ops =>
      let '(r, s) := step s o in
      let '(rs, s) := run s ops in
      (r :: rs, s)
  end.

Definition exec (s : M) (ops : list op) : M := snd (run s ops).

(** The page ids a run of operations produced through [NewPage]. *)
Definition new_page_ids (rs : list (ret H)) : list page_id_t :=
  omap (λ r, match r with RetNewPage (Some (page_id, _)) => Some page_id | _ => None end) rs.

End runs.


(** ** Properties of instance states *)

Section instance_predicates.
Import BufferPoolManagerInstance.

(** Some page table entry maps to the frame. *)
Definition mapped (s : t) (frame_id : frame_id_t) : Prop :=
  ∃ page_id, page_table_ s !! page_id = Some frame_id.

(** The frame is in the evictable set of the replacer. *)
Definition evictable (s : t) (frame_id : frame_id_t) : Prop :=
  LRUReplacer.tracked (replacer_ s) frame_id.

Definition unpinned (s : t) (frame_id : frame_id_t) : Prop :=
  ∃ p, page_at (pages_ s) frame_id = Some p ∧ pin_count_ p = 0.

(** Invariant (3) of the data model: the evictable frames are the mapped
    frames with pin count 0. *)
Definition evictable_iff_unpinned (s : t) : Prop :=
  ∀ frame_id, evictable s frame_id ↔ mapped s frame_id ∧ unpinned s frame_id.

(** A page is resident in a frame. *)
Definition resident (s : t) (page_id : page_id_t) (frame_id : frame_id_t) (p : Page) : Prop :=
  page_table_ s !! page_id = Some frame_id ∧ page_at (pages_ s) frame_id = Some p.

(** [k] calls of [FetchPgImp] and one call of [UnpinPgImp] per flag of a
    list. *)
Fixpoint fetch_times (k : nat) (s : t) (page_id : page_id_t) : t :=
  match k with
  | O => s
  | S k => fetch_times k (snd (FetchPgImp s page_id)) page_id
  end.

Fixpoint unpin_each (flags : list bool) (s : t) (page_id : page_id_t) : t :=
  match flags with
  | [] => s
  | is_dirty :: flags => unpin_each flags (snd (UnpinPgImp s page_id is_dirty)) page_id
  end.

(** States used as concrete inputs: a pool of two frames after creating page
    0 and unpinning it dirty, and a pool of one frame holding the pinned
    page 0. *)
Definition pool2 : t := BufferPoolManagerInstance 2 1 0 new_DiskManager.
Definition pool2_page0_dirty : t := exec pool2 [OpNewPage; OpUnpin 0 true].
Definition pool1_full : t :=
  exec (BufferPoolManagerInstance 1 1 0 new_DiskManager) [OpNewPage].
Definition pool1_page0_dirty : t :=
  exec (BufferPoolManagerInstance 1 1 0 new_DiskManager) [OpNewPage; OpUnpin 0 true].

(** The run that breaks invariant (3): page 0 is created in frame 0, deleted
    (frame 0 returns to the free list and keeps [page_id_ = 0]), fetched
    again into frame 1 and unpinned; the next [NewPgImp] takes frame 0 from
    the free list and erases the page table entry of its stale [page_id_],
    which is the entry of frame 1. *)
Definition stale_id_run : list op :=
  [OpNewPage; OpUnpin 0 false; OpDelete 0; OpFetch 0; OpUnpin 0 false; OpNewPage].

End instance_predicates.

(** ** Page id allocation *)

Section allocation.
Import BufferPoolManagerInstance.

(** The configuration of the page id counter of an instance. *)
Definition counter_of (s : t) : Z * Z * page_id_t :=
  (num_instances_ s, instance_index_ s, next_page_id_ s).

(** The number of [NewPage] calls in a run. *)
Fixpoint count_new_page (ops : list op) : nat :=
  match ops with
  | [] => O
  | OpNewPage :: ops => S (count_new_page ops)
  | _ :: ops => count_new_page ops
  end.

(** An instance whose shard count is the largest [int]: the counter wraps
    with the second allocation. *)
Definition wide_shard : t :=
  BufferPoolManagerInstance 2 2147483647 1 new_DiskManager.

End allocation.

(** ** Parallel manager scenarios *)

Section parallel_scenarios.

(** Two instances of one frame each. Pages 0 and 1 are created (one per
    instance), page 0 is unpinned and replaced by page 2 in instance 0, and
    page 2 is unpinned: instance 0 can give a frame, instance 1 cannot, and
    the cursor [startIdx] is 1. *)
Definition two_shards : ParallelBufferPoolManager.t BufferPoolManagerInstance.t :=
  ParallelBufferPoolManager.ParallelBufferPoolManager 2 1 new_DiskManager.

Definition shard1_full_run : list op :=
  [OpNewPage; OpNewPage; OpUnpin 0 false; OpNewPage; OpUnpin 2 false].

Definition shard1_full : ParallelBufferPoolManager.t BufferPoolManagerInstance.t :=
  exec two_shards shard1_full_run.

(** The same instances and cursor under the second revision. *)
Definition shard1_full_variant : ParallelVariant.t BufferPoolManagerInstance.t :=
  ParallelVariant.mk (ParallelBufferPoolManager.instances_ shard1_full)
    (ParallelBufferPoolManager.startIdx shard1_full) 1 2.

(** The sum of the pool sizes of the instances. *)
Definition total_capacity (instances : list BufferPoolManagerInstance.t) : nat :=
  sum_list (BufferPoolManagerInstance.pool_size_ <$> instances).

End parallel_scenarios.

(** ** Sequences of replacer calls *)

Section replacer_runs.
Import LRUReplacer.

Inductive replacer_op :=
  | RVictim
  | RPin (frame_id : frame_id_t)
  | RUnpin (frame_id : frame_id_t).

Definition replacer_step (r : LRUReplacer.t) (o : replacer_op) : LRUReplacer.t :=
  match o with
  | RVictim => snd (Victim r)
  | RPin frame_id => Pin r frame_id
  | RUnpin frame_id => Unpin r frame_id
  end.

Definition replacer_run (r : LRUReplacer.t) (ops : list replacer_op) : LRUReplacer.t :=
  foldl replacer_step r ops.

(** [Unpin] of each frame of a list, in order. *)
Definition unpin_all (r : LRUReplacer.t) (frames : list frame_id_t) : LRUReplacer.t :=
  foldl Unpin r frames.

(** The results of [n] successive calls of [Victim], and the replacer after
    them. *)
Fixpoint victims (n : nat) (r : LRUReplacer.t) : list (option frame_id_t) * LRUReplacer.t :=
  match n with
  | O => ([], r)
  | S n =>
      let '(v, r) := Victim r in
      let '(vs, r) := victims n r in
      (v :: vs, r)
  end.

End replacer_runs.

(** ** The invariant of the instance *)

Section instance_invariant.
Import BufferPoolManagerInstance.

(** What every public operation of the instance (first revision) keeps:
    the frame array has [pool_size_] frames and the replacer that capacity;
    a frame id is at most once in the free list or the replacer, and is a
    frame of the array; a page table entry names a frame that is not free and
    that holds the page of the key; pin counts are not negative; a free frame
    is unpinned and clean; a frame of the replacer is unpinned; a mapped
    frame that is unpinned is in the replacer. *)
Record instance_inv (s : t) : Prop := {
  inv_length : length (pages_ s) = pool_size_ s;
  inv_capacity : LRUReplacer.capacity_ (replacer_ s) = pool_size_ s;
  inv_nodup : NoDup (free_list_ s ++ LRUReplacer.nodes (replacer_ s));
  inv_range : ∀ f, f ∈ free_list_ s ++ LRUReplacer.nodes (replacer_ s) →
                   0 ≤ f < Z.of_nat (pool_size_ s);
  inv_table : ∀ page_id f, page_table_ s !! page_id = Some f →
                (f ∉ free_list_ s) ∧
                (∃ p, page_at (pages_ s) f = Some p ∧ page_id_ p = page_id);
  inv_pin : ∀ f p, page_at (pages_ s) f = Some p → 0 ≤ pin_count_ p;
  inv_free : ∀ f p, f ∈ free_list_ s → page_at (pages_ s) f = Some p →
               pin_count_ p = 0 ∧ is_dirty_ p = false;
  inv_tracked : ∀ f p, LRUReplacer.tracked (replacer_ s) f →
                  page_at (pages_ s) f = Some p → pin_count_ p = 0;
  inv_evictable : ∀ page_id f p, page_table_ s !! page_id = Some f →
                    page_at (pages_ s) f = Some p → pin_count_ p = 0 →
                    LRUReplacer.tracked (replacer_ s) f
}.

End instance_invariant.

(** ** Flushing *)

Section flushing.

(** A page with its dirty flag cleared. *)
Definition clean (p : Page) : Page :=
  mkPage (data_ p) (page_id_ p) (pin_count_ p) false.

(** The [WritePage] calls for the dirty pages of a frame array, in the order
    of the frames. *)
Definition dirty_writes (pages : list Page) : list (page_id_t * list Byte.byte) :=
  omap (λ p, if is_dirty_ p then Some (page_id_ p, data_ p) else None) pages.

End flushing.

(** ** What the instances of a parallel manager answer *)

Section parallel_predicates.
Context {I H : Type} `{!BufferPoolManager I H}.

(** Instance [i] of the list cannot give a page, or gives the page [page_id]
    with handle [h]. *)
Definition gives_no_page (instances : list I) (i : nat) : Prop :=
  ∃ bfi, instances !! i = Some bfi ∧ fst (NewPage bfi) = None.

Definition gives_page (instances : list I) (i : nat) (page_id : page_id_t) (h : H) : Prop :=
  ∃ bfi, instances !! i = Some bfi ∧ fst (NewPage bfi) = Some (page_id, h).

(** A manager of the second revision as its constructor and [NewPgImp] keep
    it: [num_instance_] is the number of instances and the cursor is one of
    them. *)
Definition variant_wf (m : ParallelVariant.t I) : Prop :=
  ParallelVariant.num_instance_ m = length (ParallelVariant.instances_ m) ∧
  (ParallelVariant.next_index_ m < ParallelVariant.num_instance_ m)%nat.

End parallel_predicates.

(** The instances of a parallel manager as the constructor sets them up and as
    they stay while page ids are within the [int] range: instance [i] has the
    shard count of the manager and index [i], and its counter is a
    non-negative id of its own residue class. *)
Definition shards_ok (instances : list BufferPoolManagerInstance.t) : Prop :=
  ∀ i bfi, instances !! i = Some bfi →
    BufferPoolManagerInstance.num_instances_ bfi = Z.of_nat (length instances) ∧
    BufferPoolManagerInstance.instance_index_ bfi = Z.of_nat i ∧
    0 ≤ BufferPoolManagerInstance.next_page_id_ bfi ≤ INT32_MAX ∧
    BufferPoolManagerInstance.next_page_id_ bfi mod Z.of_nat (length instances) = Z.of_nat i.
(** *** Lemmas on the replacer *)

Section lru_lemmas.
Import LRUReplacer.
Implicit Types (r : LRUReplacer.t) (f g : frame_id_t) (l : list frame_id_t).

Lemma cache_count_true r f : cache_count r f = true ↔ tracked r f.
Proof. unfold cache_count, tracked. apply bool_decide_eq_true. Qed.

Lemma cache_count_false r f : cache_count r f = false ↔ ¬ tracked r f.
Proof. unfold cache_count, tracked. apply bool_decide_eq_false. Qed.

Lemma RemoveOne_notin l f : f ∉ l → RemoveOne f l = l.
Proof.
  induction l as [|x l IH]; simpl; [done|].
  intros Hn. apply not_elem_of_cons in Hn as [Hx Hl].
  destruct (decide (x = f)); [congruence|]. by rewrite IH.
Qed.

Lemma elem_of_RemoveOne l f g : g ∈ RemoveOne f l → g ∈ l.
Proof.
  induction l as [|x l IH]; simpl; [done|].
  destruct (decide (x = f)).
  - intros. apply elem_of_cons. by right.
  - intros [->|H]%elem_of_cons; apply elem_of_cons; [by left|].
    right; auto.
Qed.

Lemma elem_of_RemoveOne_ne l f g : g ≠ f → g ∈ l → g ∈ RemoveOne f l.
Proof.
  intros Hne. induction l as [|x l IH]; simpl; [done|].
  intros [<-|H]%elem_of_cons.
  - destruct (decide (g = f)); [done|]. apply elem_of_cons. by left.
  - destruct (decide (x = f)); [done|]. apply elem_of_cons. right; auto.
Qed.

Lemma NoDup_RemoveOne l f : NoDup l → NoDup (RemoveOne f l).
Proof.
  induction 1 as [|x l Hx Hl IH]; simpl; [constructor|].
  destruct (decide (x = f)); [done|].
  constructor; [|done]. intros H. by apply elem_of_RemoveOne in H.
Qed.

Lemma RemoveOne_not_elem l f : NoDup l → f ∉ RemoveOne f l.
Proof.
  induction 1 as [|x l Hx Hl IH]; simpl; [apply not_elem_of_nil|].
  destruct (decide (x = f)) as [->|Hne]; [done|].
  apply not_elem_of_cons. split; [congruence|done].
Qed.

Lemma elem_of_removelast l f : f ∈ removelast l → f ∈ l.
Proof.
  rewrite !list_elem_of_In. induction l as [|x [|y l] IH]; simpl in *; tauto.
Qed.

Lemma NoDup_removelast l : NoDup l → NoDup (removelast l).
Proof.
  induction 1 as [|x l Hx Hl IH]; [constructor|].
  destruct l as [|y l]; [constructor|].
  change (removelast (x :: y :: l)) with (x :: removelast (y :: l)).
  constructor; [|done]. intros H. by apply elem_of_removelast in H.
Qed.

Lemma wf_new n : wf (LRUReplacer n).
Proof. constructor. Qed.

Lemma wf_Pin r f : wf r → wf (Pin r f).
Proof.
  unfold wf, Pin. intros H. destruct (cache_count r f); simpl; [|done].
  by apply NoDup_RemoveOne.
Qed.

Lemma wf_Victim r : wf r → wf (snd (Victim r)).
Proof.
  unfold wf, Victim. destruct r as [c [|x l]]; intros H; [done|].
  cbn [nodes capacity_ RemoveLast snd]. by apply NoDup_removelast.
Qed.

Lemma wf_Unpin r f : wf r → wf (Unpin r f).
Proof.
  unfold wf, Unpin. intros H.
  destruct (cache_count r f) eqn:Hc; [done|].
  apply cache_count_false in Hc. unfold tracked in Hc.
  destruct (capacity_ r <=? Size r)%nat; simpl; unfold AddToFirst.
  - constructor; [|by apply NoDup_removelast].
    intros Hin. by apply elem_of_removelast in Hin.
  - by constructor.
Qed.

(** After [Pin] the frame is not tracked. *)
Lemma Pin_untracked r f : wf r → ¬ tracked (Pin r f) f.
Proof.
  unfold wf, tracked, Pin. intros H.
  destruct (cache_count r f) eqn:Hc; simpl.
  - by apply RemoveOne_not_elem.
  - by apply cache_count_false in Hc.
Qed.

(** After [Unpin] the frame is tracked. *)
Lemma Unpin_tracked r f : tracked (Unpin r f) f.
Proof.
  unfold tracked, Unpin.
  destruct (cache_count r f) eqn:Hc.
  - by apply cache_count_true in Hc.
  - destruct (capacity_ r <=? Size r)%nat; simpl; apply elem_of_cons; by left.
Qed.

Lemma Pin_other r f g : g ≠ f → tracked (Pin r f) g ↔ tracked r g.
Proof.
  unfold tracked, Pin. intros Hne.
  destruct (cache_count r f); simpl; [|done].
  split; [apply elem_of_RemoveOne|by apply elem_of_RemoveOne_ne].
Qed.

Lemma Pin_capacity r f : capacity_ (Pin r f) = capacity_ r.
Proof. unfold Pin. by destruct (cache_count r f). Qed.

Lemma Unpin_capacity r f : capacity_ (Unpin r f) = capacity_ r.
Proof.
  unfold Unpin. destruct (cache_count r f); [done|].
  by destruct (capacity_ r <=? Size r)%nat.
Qed.

End lru_lemmas.

(** ** Lemmas on the frame array *)

Section page_lemmas.
Implicit Types (ps : list Page) (f g : frame_id_t) (p q : Page).

Lemma page_at_Some_range ps f p :
  page_at ps f = Some p → 0 ≤ f ∧ (Z.to_nat f < length ps)%nat.
Proof.
  unfold page_at. destruct (decide (0 ≤ f)); [|done].
  intros H. split; [done|]. by apply lookup_lt_Some in H.
Qed.

Lemma get_page_Some ps f p : page_at ps f = Some p → get_page ps f = p.
Proof. unfold get_page. by intros ->. Qed.

Lemma page_at_set_page_eq ps f p q :
  page_at ps f = Some p → page_at (set_page ps f q) f = Some q.
Proof.
  intros [H0 Hlt]%page_at_Some_range. unfold page_at, set_page.
  destruct (decide (0 ≤ f)); [|done]. by apply list_lookup_insert_eq.
Qed.

Lemma page_at_set_page_ne ps f g q :
  f ≠ g → page_at (set_page ps f q) g = page_at ps g.
Proof.
  intros Hne. unfold page_at, set_page.
  destruct (decide (0 ≤ g)); [|done].
  destruct (decide (0 ≤ f)); [|done].
  apply list_lookup_insert_ne. lia.
Qed.

Lemma set_page_id ps f p : page_at ps f = Some p → set_page ps f p = ps.
Proof.
  unfold page_at, set_page. destruct (decide (0 ≤ f)); [|done].
  apply list_insert_id.
Qed.

Lemma set_page_set_page ps f p q :
  set_page (set_page ps f p) f q = set_page ps f q.
Proof.
  unfold set_page. destruct (decide (0 ≤ f)); [|done].
  apply list_insert_insert_eq.
Qed.

Lemma length_set_page ps f p : length (set_page ps f p) = length ps.
Proof. unfold set_page. destruct (decide (0 ≤ f)); [|done]. apply length_insert. Qed.

End page_lemmas.

(** A frame the replacer names as victim was tracked. *)
Lemma Victim_tracked (r : LRUReplacer.t) (f : frame_id_t) :
  fst (LRUReplacer.Victim r) = Some f → LRUReplacer.tracked r f.
Proof.
  unfold LRUReplacer.Victim, LRUReplacer.tracked.
  destruct r as [c l]; cbn [LRUReplacer.nodes LRUReplacer.capacity_].
  destruct l as [|x l]; [done|].
  cbn [LRUReplacer.RemoveLast fst]. intros H.
  apply last_Some in H as [l' ->]. apply elem_of_app. right. apply elem_of_cons. by left.
Qed.

(** ** The buffer pool manager instance *)

Section instance_theorems.
Import BufferPoolManagerInstance.
Implicit Types (s : t) (f : frame_id_t) (p : Page).

(** C1 (fails on the code). The claim: after every public operation a frame
    is in the replacer's evictable set iff it is mapped in the page table and
    its pin count is 0. On a fresh pool of two frames, after new_page (page
    0), unpin(0), delete(0), fetch(0), unpin(0), new_page, frame 1 is
    evictable and unpinned but no page table entry maps to it, although the
    property held before the last call. *)
Theorem evictable_iff_unpinned_broken :
  let s := exec pool2 stale_id_run in
  fst (run pool2 stale_id_run) =
    [RetNewPage (Some (0, 0)); RetBool true; RetBool true; RetPage (Some 1);
     RetBool true; RetNewPage (Some (1, 0))] ∧
  evictable_iff_unpinned (exec pool2 (take 5 stale_id_run)) ∧
  evictable s 1 ∧ unpinned s 1 ∧ ¬ mapped s 1 ∧
  ¬ evictable_iff_unpinned s.
Proof.
  assert (Hpt : page_table_ (exec pool2 stale_id_run) = {[ 1 := 0 ]})
    by (vm_compute; reflexivity).
  assert (Hev : evictable (exec pool2 stale_id_run) 1).
  { unfold evictable, LRUReplacer.tracked.
    replace (LRUReplacer.nodes (replacer_ (exec pool2 stale_id_run))) with [1]
      by (vm_compute; reflexivity).
    apply elem_of_cons. left. reflexivity. }
  assert (Hnm : ¬ mapped (exec pool2 stale_id_run) 1).
  { intros [pid Hpid]. rewrite Hpt in Hpid.
    apply lookup_singleton_Some in Hpid as [_ Hpid]. discriminate Hpid. }
  cbv zeta. split; [|split; [|split; [|split; [|split]]]].
  - vm_compute; reflexivity.
  - intros f. unfold evictable, mapped, unpinned, LRUReplacer.tracked.
    replace (LRUReplacer.nodes (replacer_ (exec pool2 (take 5 stale_id_run))))
      with [1] by (vm_compute; reflexivity).
    replace (page_table_ (exec pool2 (take 5 stale_id_run)))
      with ({[ 0 := 1 ]} : gmap Z frame_id_t) by (vm_compute; reflexivity).
    split.
    + intros ->%list_elem_of_singleton. split.
      * exists 0. apply lookup_singleton_eq.
      * eexists. split; [vm_compute; reflexivity|reflexivity].
    + intros [[pid [_ <-]%lookup_singleton_Some] _].
      apply list_elem_of_singleton. reflexivity.
  - exact Hev.
  - eexists. split; [vm_compute; reflexivity|reflexivity].
  - exact Hnm.
  - intros Hiff. apply Hnm. apply Hiff. exact Hev.
Qed.

(** *** Helper lemmas *)

Lemma Size_0_nodes (r : LRUReplacer.t) :
  LRUReplacer.Size r = 0%nat → LRUReplacer.nodes r = [].
Proof. unfold LRUReplacer.Size. by destruct (LRUReplacer.nodes r). Qed.

Lemma pick_frame_exhausted s :
  free_list_ s = [] → LRUReplacer.Size (replacer_ s) = 0%nat → pick_frame s = None.
Proof.
  intros Hfl Hsz%Size_0_nodes. unfold pick_frame, LRUReplacer.Victim.
  by rewrite Hfl, Hsz.
Qed.

Lemma pick_frame_victim s f :
  free_list_ s = [] → fst (LRUReplacer.Victim (replacer_ s)) = Some f →
  pick_frame s = Some (f, with_replacer s (snd (LRUReplacer.Victim (replacer_ s)))).
Proof.
  intros Hfl Hv. unfold pick_frame. rewrite Hfl.
  destruct (LRUReplacer.Victim (replacer_ s)) as [o r]. simpl in Hv. by subst o.
Qed.

Lemma write_back_dirty s f p :
  page_at (pages_ s) f = Some p → is_dirty_ p = true →
  write_back s f =
    with_pages (with_disk s (WritePage (disk_manager_ s) (page_id_ p) (data_ p)))
      (set_page (pages_ s) f (mkPage (data_ p) (page_id_ p) (pin_count_ p) false)).
Proof.
  intros Hp Hd. unfold write_back. rewrite (get_page_Some _ _ _ Hp). by rewrite Hd.
Qed.

Lemma UnpinPgImp_not_resident s page_id is_dirty :
  page_table_ s !! page_id = None → UnpinPgImp s page_id is_dirty = (false, s).
Proof. intros Hn. unfold UnpinPgImp. by rewrite Hn. Qed.

Lemma UnpinPgImp_zero s page_id is_dirty f p :
  resident s page_id f p → pin_count_ p ≤ 0 →
  UnpinPgImp s page_id is_dirty =
    (false,
     with_pages s
       (set_page (pages_ s) f
          (mkPage (data_ p) (page_id_ p) (pin_count_ p) (is_dirty_ p || is_dirty)))).
Proof.
  intros [Hpt Hp] Hpin. unfold UnpinPgImp. rewrite Hpt.
  rewrite (get_page_Some _ _ _ Hp). cbn [pin_count_ data_ page_id_ is_dirty_].
  by destruct (Z.leb_spec (pin_count_ p) 0) as [_|?]; [|lia].
Qed.

Lemma UnpinPgImp_pos s page_id is_dirty f p :
  resident s page_id f p → 0 < pin_count_ p →
  UnpinPgImp s page_id is_dirty =
    (true,
     let s1 := with_pages s
                 (set_page (pages_ s) f
                    (mkPage (data_ p) (page_id_ p) (pin_count_ p - 1)
                       (is_dirty_ p || is_dirty))) in
     if pin_count_ p - 1 =? 0
     then with_replacer s1 (LRUReplacer.Unpin (replacer_ s) f)
     else s1).
Proof.
  intros [Hpt Hp] Hpin. unfold UnpinPgImp. rewrite Hpt.
  rewrite (get_page_Some _ _ _ Hp). cbn [pin_count_ data_ page_id_ is_dirty_].
  destruct (Z.leb_spec (pin_count_ p) 0) as [?|_]; [lia|].
  cbn [pages_ with_pages]. rewrite set_page_set_page. cbv zeta.
  by destruct (pin_count_ p - 1 =? 0).
Qed.

(** C3. When [NewPgImp] cannot acquire a frame (the free list is empty and
    the replacer tracks no frame) it returns [nullptr] and the instance is
    unchanged: page table, free list, replacer, frames, disk and the page id
    counter [next_page_id_] are as before the call. *)
Theorem NewPgImp_exhausted_noop s :
  free_list_ s = [] → LRUReplacer.Size (replacer_ s) = 0%nat →
  NewPgImp s = (None, s) ∧
  next_page_id_ (snd (NewPgImp s)) = next_page_id_ s ∧
  page_table_ (snd (NewPgImp s)) = page_table_ s ∧
  free_list_ (snd (NewPgImp s)) = free_list_ s ∧
  replacer_ (snd (NewPgImp s)) = replacer_ s.
Proof.
  intros Hfl Hsz. unfold NewPgImp.
  by rewrite (pick_frame_exhausted s Hfl Hsz).
Qed.

Lemma NewPgImp_exhausted_noop_witness :
  NewPgImp pool1_full = (None, pool1_full) ∧
  next_page_id_ (snd (NewPgImp pool1_full)) = next_page_id_ pool1_full ∧
  page_table_ (snd (NewPgImp pool1_full)) = page_table_ pool1_full ∧
  free_list_ (snd (NewPgImp pool1_full)) = free_list_ pool1_full ∧
  replacer_ (snd (NewPgImp pool1_full)) = replacer_ pool1_full.
Proof.
  apply (NewPgImp_exhausted_noop pool1_full); vm_compute; reflexivity.
Defined.

(** C4 (fails on the code as stated). A second unpin of page 0, whose pin
    count is already 0 and whose frame is clean, with [is_dirty = true]
    returns false and leaves the pin count 0, but it sets the dirty flag of
    the frame: the flag is ORed in before the pin count is tested. *)
Lemma UnpinPgImp_rejected_sets_dirty :
  let s := exec pool2 [OpNewPage; OpUnpin 0 false] in
  let s' := snd (UnpinPgImp s 0 true) in
  fst (UnpinPgImp s 0 true) = false ∧
  pin_count_ (get_page (pages_ s) 0) = 0 ∧
  pin_count_ (get_page (pages_ s') 0) = 0 ∧
  is_dirty_ (get_page (pages_ s) 0) = false ∧
  is_dirty_ (get_page (pages_ s') 0) = true ∧
  pages_ s' ≠ pages_ s.
Proof.
  cbv zeta. split_and!; try (vm_compute; reflexivity).
  intros Heq.
  assert (H : is_dirty_ (get_page (pages_ (snd (UnpinPgImp (exec pool2 [OpNewPage; OpUnpin 0 false]) 0 true))) 0) = true)
    by (vm_compute; reflexivity).
  rewrite Heq in H. vm_compute in H. discriminate.
Qed.

(** C4 (amended). [UnpinPgImp] returns false and changes nothing when the
    page is not resident. When the page is resident with a pin count that is
    already 0, it returns false, the pin count is not decremented, and the
    instance is unchanged but for the dirty flag of the frame, into which
    [is_dirty] has been ORed; so the frame is unmodified when [is_dirty] is
    false or the frame was already dirty. *)
Theorem UnpinPgImp_rejected s page_id is_dirty :
  (page_table_ s !! page_id = None → UnpinPgImp s page_id is_dirty = (false, s)) ∧
  (∀ f p, resident s page_id f p → pin_count_ p ≤ 0 →
     UnpinPgImp s page_id is_dirty =
       (false,
        with_pages s
          (set_page (pages_ s) f
             (mkPage (data_ p) (page_id_ p) (pin_count_ p) (is_dirty_ p || is_dirty)))) ∧
     (is_dirty = false ∨ is_dirty_ p = true → UnpinPgImp s page_id is_dirty = (false, s))).
Proof.
  split; [apply UnpinPgImp_not_resident|].
  intros f p Hres Hpin. rewrite (UnpinPgImp_zero s page_id is_dirty f p Hres Hpin).
  split; [done|]. intros Hd.
  assert (is_dirty_ p || is_dirty = is_dirty_ p) as ->.
  { destruct Hd as [->| ->]; [apply orb_false_r|done]. }
  destruct Hres as [_ Hp]. destruct s, p; cbn in *. unfold with_pages; cbn.
  by rewrite (set_page_id _ _ _ Hp).
Qed.

Lemma UnpinPgImp_rejected_witness :
  UnpinPgImp pool2 7 true = (false, pool2) ∧
  UnpinPgImp pool2_page0_dirty 0 false = (false, pool2_page0_dirty).
Proof.
  split.
  - apply (proj1 (UnpinPgImp_rejected pool2 7 true)). vm_compute; reflexivity.
  - apply (proj2 (UnpinPgImp_rejected pool2_page0_dirty 0 false) 0
             (get_page (pages_ pool2_page0_dirty) 0)).
    + split; vm_compute; reflexivity.
    + vm_compute. discriminate.
    + by left.
Defined.

(** C5. A successful unpin: for a resident page with a positive pin count,
    [UnpinPgImp] returns true, ORs [is_dirty] into the dirty flag of the frame
    (a dirty frame stays dirty whatever the argument), decrements the pin
    count by one and, when the count reaches 0, tracks the frame in the
    replacer; with a count still positive the replacer is untouched. Page
    table, free list and disk are unchanged. *)
Theorem UnpinPgImp_success s page_id is_dirty f p :
  resident s page_id f p → 0 < pin_count_ p →
  let p' := mkPage (data_ p) (page_id_ p) (pin_count_ p - 1) (is_dirty_ p || is_dirty) in
  let s' := snd (UnpinPgImp s page_id is_dirty) in
  fst (UnpinPgImp s page_id is_dirty) = true ∧
  page_at (pages_ s') f = Some p' ∧
  (is_dirty_ p = true → is_dirty_ p' = true) ∧
  (pin_count_ p' = 0 → evictable s' f) ∧
  (pin_count_ p' ≠ 0 → replacer_ s' = replacer_ s) ∧
  page_table_ s' = page_table_ s ∧ free_list_ s' = free_list_ s ∧
  disk_manager_ s' = disk_manager_ s ∧
  (∀ g, g ≠ f → page_at (pages_ s') g = page_at (pages_ s) g).
Proof.
  intros Hres Hpin. cbv zeta.
  rewrite (UnpinPgImp_pos s page_id is_dirty f p Hres Hpin).
  destruct Hres as [Hpt Hp]. cbv zeta.
  destruct (Z.eqb_spec (pin_count_ p - 1) 0) as [H0|H0];
    cbn [fst snd pages_ page_table_ free_list_ disk_manager_ replacer_
         with_pages with_replacer pin_count_ is_dirty_].
  - split_and!; try done.
    + by apply page_at_set_page_eq with p.
    + by intros ->.
    + intros _. apply Unpin_tracked.
    + intros g Hg. by apply page_at_set_page_ne.
  - split_and!; try done.
    + by apply page_at_set_page_eq with p.
    + by intros ->.
    + intros g Hg. by apply page_at_set_page_ne.
Qed.

Lemma UnpinPgImp_success_witness :
  fst (UnpinPgImp pool1_full 0 true) = true ∧
  evictable (snd (UnpinPgImp pool1_full 0 true)) 0.
Proof.
  pose proof (UnpinPgImp_success pool1_full 0 true 0 (get_page (pages_ pool1_full) 0)) as H.
  cbv zeta in H. destruct H as (Hr & _ & _ & Hev & _).
  - split; vm_compute; reflexivity.
  - vm_compute; reflexivity.
  - split; [exact Hr|]. apply Hev. vm_compute; reflexivity.
Defined.

(** C10. [DeletePgImp] of a resident page with pin count 0 whose frame is
    dirty returns true and puts the frame at the back of the free list
    without a call of [WritePage]: the write log and the persisted pages of
    the disk are as before, the bytes of the frame are zeroed and its dirty
    flag cleared, and the page is no longer in the page table. Eviction, in
    contrast, writes back: when [NewPgImp], or [FetchPgImp] of a page that is
    not resident, takes a dirty victim from the replacer, the bytes of the
    victim are written to disk under its page id. *)
Theorem DeletePgImp_dirty_no_write s page_id f p :
  resident s page_id f p → pin_count_ p = 0 → is_dirty_ p = true →
  let s' := snd (DeletePgImp s page_id) in
  (fst (DeletePgImp s page_id) = true ∧
   free_list_ s' = free_list_ s ++ [f] ∧
   write_log (disk_manager_ s') = write_log (disk_manager_ s) ∧
   disk_pages (disk_manager_ s') = disk_pages (disk_manager_ s) ∧
   page_at (pages_ s') f = Some (mkPage zero_data (page_id_ p) 0 false) ∧
   page_table_ s' !! page_id = None) ∧
  (free_list_ s = [] → fst (LRUReplacer.Victim (replacer_ s)) = Some f →
   write_log (disk_manager_ (snd (NewPgImp s))) =
     (page_id_ p, data_ p) :: write_log (disk_manager_ s) ∧
   ∀ q, page_table_ s !! q = None →
     write_log (disk_manager_ (snd (FetchPgImp s q))) =
       (page_id_ p, data_ p) :: write_log (disk_manager_ s)).
Proof.
  intros [Hpt Hp] Hpin Hd. cbv zeta. split.
  - unfold DeletePgImp.
    cbn [page_table_ pages_ with_disk]. rewrite Hpt.
    rewrite (get_page_Some _ _ _ Hp). rewrite Hpin.
    cbn [Z.ltb Z.compare fst snd free_list_ disk_manager_ pages_ page_table_
         with_free_list with_pages with_replacer with_page_table with_disk
         DeallocatePage write_log disk_pages].
    split_and!; try done.
    + by apply page_at_set_page_eq with p.
    + apply lookup_delete_eq.
  - intros Hfl Hv. split.
    + unfold NewPgImp. rewrite (pick_frame_victim s f Hfl Hv).
      unfold AllocatePage.
      rewrite (write_back_dirty _ f p); [|exact Hp|exact Hd]. done.
    + intros q Hq. unfold FetchPgImp. rewrite Hq.
      rewrite (pick_frame_victim s f Hfl Hv).
      rewrite (write_back_dirty _ f p); [|exact Hp|exact Hd]. done.
Qed.

Lemma DeletePgImp_dirty_no_write_witness :
  (fst (DeletePgImp pool1_page0_dirty 0) = true ∧
   free_list_ (snd (DeletePgImp pool1_page0_dirty 0)) = [0] ∧
   write_log (disk_manager_ (snd (DeletePgImp pool1_page0_dirty 0))) = []) ∧
  write_log (disk_manager_ (snd (NewPgImp pool1_page0_dirty))) =
    [(0, data_ (get_page (pages_ pool1_page0_dirty) 0))].
Proof.
  pose proof (DeletePgImp_dirty_no_write pool1_page0_dirty 0 0
                (get_page (pages_ pool1_page0_dirty) 0)) as H.
  cbv zeta in H. destruct H as [(Hr & Hfl & Hw & _) Hev].
  - split; vm_compute; reflexivity.
  - vm_compute; reflexivity.
  - vm_compute; reflexivity.
  - split; [split; [exact Hr|split; [exact Hfl|exact Hw]]|].
    apply Hev; vm_compute; reflexivity.
Defined.

(** *** Fetching a resident page *)

Lemma FetchPgImp_hit s page_id f p :
  resident s page_id f p →
  FetchPgImp s page_id =
    (Some f,
     with_pages (with_replacer s (LRUReplacer.Pin (replacer_ s) f))
       (set_page (pages_ s) f
          (mkPage (data_ p) (page_id_ p) (pin_count_ p + 1) (is_dirty_ p)))).
Proof.
  intros [Hpt Hp]. unfold FetchPgImp. rewrite Hpt.
  by rewrite (get_page_Some _ _ _ Hp).
Qed.

Lemma fetch_times_pins k : ∀ s page_id f p,
  resident s page_id f p → LRUReplacer.wf (replacer_ s) →
  ∃ p', resident (fetch_times k s page_id) page_id f p' ∧
        pin_count_ p' = pin_count_ p + Z.of_nat k ∧
        LRUReplacer.wf (replacer_ (fetch_times k s page_id)) ∧
        ((1 ≤ k)%nat → ¬ evictable (fetch_times k s page_id) f).
Proof.
  induction k as [|k IH]; intros s page_id f p Hres Hwf.
  - exists p. cbn [fetch_times]. split_and!; [done|lia|done|lia].
  - cbn [fetch_times]. rewrite (FetchPgImp_hit s page_id f p Hres). cbn [snd].
    destruct Hres as [Hpt Hp].
    set (s1 := with_pages _ _).
    assert (Hres1 : resident s1 page_id f
              (mkPage (data_ p) (page_id_ p) (pin_count_ p + 1) (is_dirty_ p))).
    { split; [exact Hpt|]. subst s1. cbn [pages_ with_pages with_replacer].
      by apply page_at_set_page_eq with p. }
    assert (Hwf1 : LRUReplacer.wf (replacer_ s1)) by (by apply wf_Pin).
    assert (Hne1 : ¬ evictable s1 f) by (by apply Pin_untracked).
    destruct (IH s1 page_id f _ Hres1 Hwf1) as (p' & Hres' & Hpin' & Hwf' & Hev').
    exists p'. split_and!; [done|cbn [pin_count_] in Hpin'; lia|done|].
    intros _. destruct k as [|k]; [exact Hne1|]. apply Hev'. lia.
Qed.

Lemma unpin_each_evictable flags : ∀ s page_id f p,
  resident s page_id f p → 0 ≤ pin_count_ p →
  (evictable s f ↔ pin_count_ p = 0) →
  (evictable (unpin_each flags s page_id) f ↔
   pin_count_ p ≤ Z.of_nat (length flags)).
Proof.
  induction flags as [|d flags IH]; intros s page_id f p Hres Hc Hiff.
  - cbn [unpin_each length]. rewrite Hiff. cbn. lia.
  - cbn [unpin_each length].
    destruct (decide (pin_count_ p = 0)) as [H0|Hpos].
    + rewrite (UnpinPgImp_zero s page_id d f p Hres ltac:(lia)). cbn [snd].
      set (s1 := with_pages _ _).
      assert (Hres1 : resident s1 page_id f
                (mkPage (data_ p) (page_id_ p) (pin_count_ p) (is_dirty_ p || d))).
      { destruct Hres as [Hpt Hp]. split; [exact Hpt|]. subst s1.
        cbn [pages_ with_pages]. by apply page_at_set_page_eq with p. }
      rewrite (IH s1 page_id f _ Hres1); cbn [pin_count_]; [lia|lia|].
      subst s1. exact Hiff.
    + rewrite (UnpinPgImp_pos s page_id d f p Hres ltac:(lia)). cbn [snd].
      match goal with |- context [unpin_each flags ?x page_id] => set (s1 := x) end.
      assert (Hres1 : resident s1 page_id f
                (mkPage (data_ p) (page_id_ p) (pin_count_ p - 1) (is_dirty_ p || d))).
      { destruct Hres as [Hpt Hp]. subst s1. cbv zeta.
        destruct (pin_count_ p - 1 =? 0); (split; [exact Hpt|]);
          cbn [pages_ with_pages with_replacer]; by apply page_at_set_page_eq with p. }
      rewrite (IH s1 page_id f _ Hres1); cbn [pin_count_]; [lia|lia|].
      subst s1. cbv zeta. unfold evictable in *.
      destruct (Z.eqb_spec (pin_count_ p - 1) 0) as [H0|H0];
        cbn [replacer_ with_pages with_replacer].
      * split; [done|]. intros _. apply Unpin_tracked.
      * rewrite Hiff. lia.
Qed.

(** C2. For a resident page, [FetchPgImp] returns the frame of the page,
    increments the pin count of the frame by one and leaves the frame out of
    the replacer's evictable set. Consequently, after [k >= 1] fetches of a
    page that had pin count [c] (0 for a page nobody holds), the frame is
    evictable after a number of unpins iff that number is at least [c + k]:
    with fewer unpins [Victim] cannot return the frame, so a page fetched [k]
    times needs exactly [k] unpins. *)
Theorem FetchPgImp_resident_pins s page_id f p :
  resident s page_id f p → LRUReplacer.wf (replacer_ s) → 0 ≤ pin_count_ p →
  (fst (FetchPgImp s page_id) = Some f ∧
   page_at (pages_ (snd (FetchPgImp s page_id))) f =
     Some (mkPage (data_ p) (page_id_ p) (pin_count_ p + 1) (is_dirty_ p)) ∧
   ¬ evictable (snd (FetchPgImp s page_id)) f) ∧
  ∀ (k : nat) (flags : list bool), (1 ≤ k)%nat →
    let s' := unpin_each flags (fetch_times k s page_id) page_id in
    (evictable s' f ↔ pin_count_ p + Z.of_nat k ≤ Z.of_nat (length flags)) ∧
    (Z.of_nat (length flags) < pin_count_ p + Z.of_nat k →
     fst (LRUReplacer.Victim (replacer_ s')) ≠ Some f).
Proof.
  intros Hres Hwf Hc. split.
  - rewrite (FetchPgImp_hit s page_id f p Hres).
    cbn [fst snd pages_ with_pages with_replacer]. split_and!; [done| |].
    + destruct Hres as [_ Hp]. by apply page_at_set_page_eq with p.
    + by apply Pin_untracked.
  - intros k flags Hk. cbv zeta.
    destruct (fetch_times_pins k s page_id f p Hres Hwf)
      as (p' & Hres' & Hpin' & _ & Hne).
    assert (Hiff : evictable (unpin_each flags (fetch_times k s page_id) page_id) f
                   ↔ pin_count_ p + Z.of_nat k ≤ Z.of_nat (length flags)).
    { rewrite <- Hpin'. apply unpin_each_evictable; [done|lia|].
      split; [intros He; by apply Hne in He|lia]. }
    split; [exact Hiff|].
    intros Hlt Hv. apply Victim_tracked in Hv. apply Hiff in Hv. lia.
Qed.

Lemma FetchPgImp_resident_pins_witness :
  fst (FetchPgImp pool2_page0_dirty 0) = Some 0 ∧
  (evictable (unpin_each [false; true; false] (fetch_times 3 pool2_page0_dirty 0) 0) 0 ↔
   0 + 3 ≤ 3).
Proof.
  pose proof (FetchPgImp_resident_pins pool2_page0_dirty 0 0
                (get_page (pages_ pool2_page0_dirty) 0)) as H.
  destruct H as [(Hr & _) Hk].
  - split; vm_compute; reflexivity.
  - apply (bool_decide_unpack _). vm_compute. exact I.
  - vm_compute. discriminate.
  - split; [exact Hr|]. apply (Hk 3%nat [false; true; false]). lia.
Defined.

End instance_theorems.

(** ** Track on a tracked frame *)

Section replacer_theorems.
Import LRUReplacer.

(** C8. [Unpin] of a frame the replacer already tracks is a no-op: the
    replacer is unchanged, so the tracked frames, their recency order (the
    position of the frame included) and the size are unchanged. [Unpin] is
    idempotent: a second call with the same frame changes nothing. *)
Theorem Unpin_tracked_noop (r : LRUReplacer.t) (frame_id : frame_id_t) :
  tracked r frame_id →
  Unpin r frame_id = r ∧
  nodes (Unpin r frame_id) = nodes r ∧
  Size (Unpin r frame_id) = Size r ∧
  Unpin (Unpin r frame_id) frame_id = Unpin r frame_id.
Proof.
  intros Ht. apply cache_count_true in Ht.
  assert (Hid : Unpin r frame_id = r) by (unfold Unpin; by rewrite Ht).
  rewrite !Hid. done.
Qed.

Lemma Unpin_tracked_noop_witness :
  Unpin (mk 3 [2; 1]) 1 = mk 3 [2; 1] ∧
  nodes (Unpin (mk 3 [2; 1]) 1) = [2; 1] ∧
  Size (Unpin (mk 3 [2; 1]) 1) = 2%nat ∧
  Unpin (Unpin (mk 3 [2; 1]) 1) 1 = Unpin (mk 3 [2; 1]) 1.
Proof.
  apply (Unpin_tracked_noop (mk 3 [2; 1]) 1).
  unfold tracked. cbn [nodes]. apply elem_of_cons. right.
  apply elem_of_cons. left. reflexivity.
Defined.

(** [Unpin] is idempotent on every replacer. *)
Lemma Unpin_idempotent (r : LRUReplacer.t) (frame_id : frame_id_t) :
  Unpin (Unpin r frame_id) frame_id = Unpin r frame_id.
Proof.
  pose proof (Unpin_tracked r frame_id) as Ht. apply cache_count_true in Ht.
  unfold Unpin at 1. by rewrite Ht.
Qed.

End replacer_theorems.

(** ** Page id allocation *)

Section allocation_theorems.
Import BufferPoolManagerInstance.
Implicit Types (s : t).

Lemma wrap32_small x : - 2 ^ 31 ≤ x ≤ INT32_MAX → wrap32 x = x.
Proof. unfold wrap32, INT32_MAX. intros Hx. rewrite Z.mod_small; lia. Qed.

Lemma wrap32_add x n : wrap32 (wrap32 x + n) = wrap32 (x + n).
Proof.
  unfold wrap32. f_equal.
  replace ((x + 2 ^ 31) mod 2 ^ 32 - 2 ^ 31 + n + 2 ^ 31)
    with ((x + 2 ^ 31) mod 2 ^ 32 + n) by lia.
  rewrite Zplus_mod_idemp_l. f_equal. lia.
Qed.

Lemma write_back_counter s f : counter_of (write_back s f) = counter_of s.
Proof. unfold write_back. by destruct (is_dirty_ _). Qed.

Lemma pick_frame_counter s f s' :
  pick_frame s = Some (f, s') → counter_of s' = counter_of s.
Proof.
  unfold pick_frame. destruct (free_list_ s) as [|x l].
  - destruct (LRUReplacer.Victim (replacer_ s)) as [[g|] r]; [|done].
    by intros [= _ <-].
  - by intros [= _ <-].
Qed.

Lemma FetchPgImp_counter s page_id :
  counter_of (snd (FetchPgImp s page_id)) = counter_of s.
Proof.
  unfold FetchPgImp. destruct (page_table_ s !! page_id); [done|].
  destruct (pick_frame s) as [[f s1]|] eqn:E; [|done].
  cbn [snd]. unfold counter_of at 1.
  cbn [num_instances_ instance_index_ next_page_id_ with_pages with_page_table].
  fold (counter_of (write_back s1 f)). rewrite write_back_counter.
  by apply pick_frame_counter with f.
Qed.

Lemma DeletePgImp_counter s page_id :
  counter_of (snd (DeletePgImp s page_id)) = counter_of s.
Proof.
  unfold DeletePgImp. cbn [page_table_ pages_ with_disk].
  destruct (page_table_ s !! page_id); [|done].
  by destruct (0 <? _).
Qed.

Lemma UnpinPgImp_counter s page_id is_dirty :
  counter_of (snd (UnpinPgImp s page_id is_dirty)) = counter_of s.
Proof.
  unfold UnpinPgImp. destruct (page_table_ s !! page_id); [|done].
  cbn [pin_count_]. destruct (_ <=? 0); [done|]. by destruct (_ =? 0).
Qed.

Lemma FlushPgImp_counter s page_id :
  counter_of (snd (FlushPgImp s page_id)) = counter_of s.
Proof.
  unfold FlushPgImp. destruct (page_table_ s !! page_id); [|done].
  by destruct (is_dirty_ _).
Qed.

Lemma FlushAllPgsImp_counter s : counter_of (FlushAllPgsImp s) = counter_of s.
Proof.
  unfold FlushAllPgsImp. generalize (seq 0 (pool_size_ s)). intros l.
  revert s. induction l as [|i l IH]; intros s; [done|].
  cbn [foldl]. rewrite IH. apply write_back_counter.
Qed.

(** [NewPgImp] either fails and leaves the instance as it is, or returns the
    counter as the new page id and advances the counter. *)
Lemma NewPgImp_counter s :
  match fst (NewPgImp s) with
  | Some (page_id, _) =>
      page_id = next_page_id_ s ∧
      counter_of (snd (NewPgImp s)) =
        (num_instances_ s, instance_index_ s,
         wrap32 (next_page_id_ s + num_instances_ s))
  | None => snd (NewPgImp s) = s
  end.
Proof.
  unfold NewPgImp. destruct (pick_frame s) as [[f s1]|] eqn:E; [|done].
  apply pick_frame_counter in E. unfold counter_of in E.
  injection E as E1 E2 E3.
  unfold AllocatePage. cbn [fst snd]. split; [done|].
  unfold counter_of at 1.
  cbn [num_instances_ instance_index_ next_page_id_ with_pages with_page_table].
  match goal with |- context [write_back ?x f] =>
    fold (counter_of (write_back x f)); rewrite (write_back_counter x f) end.
  unfold counter_of. cbn [num_instances_ instance_index_ next_page_id_ with_next_page_id].
  by rewrite E1, E2, E3.
Qed.

(** The ids of a run from a state whose counter is [wrap32 (idx + a * N)]. *)
Lemma run_new_page_ids N idx ops : ∀ s a,
  0 < N → 0 ≤ idx < N → 0 ≤ a →
  counter_of s = (N, idx, wrap32 (idx + a * N)) →
  idx + (a + Z.of_nat (count_new_page ops) - 1) * N ≤ INT32_MAX →
  Forall (λ page_id, 0 ≤ page_id ∧ page_id mod N = idx ∧ ValidatePageId s page_id = true)
         (new_page_ids (fst (run s ops))).
Proof.
  induction ops as [|o ops IH]; intros s a HN Hidx Ha Hc Hb; [constructor|].
  assert (Hkeep : ∀ s', counter_of s' = counter_of s →
            count_new_page (o :: ops) = count_new_page ops →
            Forall (λ page_id, 0 ≤ page_id ∧ page_id mod N = idx ∧
                               ValidatePageId s page_id = true)
                   (new_page_ids (fst (run s' ops)))).
  { intros s' Hs' Hcnt. rewrite Hcnt in Hb.
    eapply Forall_impl; [apply (IH s' a); try done; by rewrite Hs'|].
    intros page_id (? & ? & Hv). split_and!; [done|done|].
    unfold ValidatePageId in *. unfold counter_of in Hs'.
    injection Hs' as E1 E2 _. rewrite E1, E2 in Hv. exact Hv. }
  destruct o as [pid| |pid d|pid|pid|]; cbn [run step].
  - pose proof (FetchPgImp_counter s pid) as Hs'.
    change (@FetchPage t frame_id_t bpm s pid) with (FetchPgImp s pid).
    destruct (FetchPgImp s pid) as [r s']. cbn [snd] in Hs'.
    specialize (Hkeep s' Hs' eq_refl).
    destruct (run s' ops) as [rs s'']. exact Hkeep.
  - pose proof (NewPgImp_counter s) as Hn.
    change (@NewPage t frame_id_t bpm s) with (NewPgImp s).
    destruct (NewPgImp s) as [[[page_id h]|] s']; cbn [fst snd] in Hn.
    + destruct Hn as [-> Hs'].
      unfold counter_of in Hc. injection Hc as HcN Hci Hcn.
      cbn [count_new_page] in Hb. rewrite Nat2Z.inj_succ in Hb.
      pose proof (Nat2Z.is_nonneg (count_new_page ops)) as Hcnt.
      assert (Hrange : 0 ≤ idx + a * N ≤ INT32_MAX) by nia.
      assert (Hid : next_page_id_ s = idx + a * N).
      { rewrite Hcn. apply wrap32_small. unfold INT32_MAX in *. lia. }
      assert (Htail : Forall (λ page_id, 0 ≤ page_id ∧ page_id mod N = idx ∧
                                 ValidatePageId s page_id = true)
                        (new_page_ids (fst (run s' ops)))).
      { assert (Hc' : counter_of s' = (N, idx, wrap32 (idx + (a + 1) * N))).
        { rewrite Hs', HcN, Hci, Hcn. rewrite wrap32_add. do 2 f_equal. lia. }
        assert (Hb' : idx + (a + 1 + Z.of_nat (count_new_page ops) - 1) * N ≤ INT32_MAX).
        { replace (a + 1 + Z.of_nat (count_new_page ops) - 1)
            with (a + Z.succ (Z.of_nat (count_new_page ops)) - 1) by lia.
          exact Hb. }
        pose proof (IH s' (a + 1) HN Hidx ltac:(lia) Hc' Hb') as Ht.
        eapply Forall_impl; [exact Ht|].
        intros page_id (? & ? & Hv). split_and!; [done|done|].
        unfold ValidatePageId in *. unfold counter_of in Hs'.
        injection Hs' as E1 E2 _. rewrite E1, E2 in Hv. exact Hv. }
      destruct (run s' ops) as [rs s'']. cbn [fst new_page_ids omap] in *.
      constructor; [|exact Htail].
      rewrite Hid. split_and!; [lia|by rewrite Z.mod_add, Z.mod_small by lia|].
      unfold ValidatePageId. apply bool_decide_eq_true.
      rewrite HcN, Hci. unfold to_uint32.
      rewrite (Z.mod_small (idx + a * N)) by (unfold INT32_MAX in *; lia).
      by rewrite Z.mod_add, Z.mod_small by lia.
    + subst s'. cbn [count_new_page] in Hb.
      assert (Htail : Forall (λ page_id, 0 ≤ page_id ∧ page_id mod N = idx ∧
                                 ValidatePageId s page_id = true)
                        (new_page_ids (fst (run s ops)))).
      { apply (IH s a); try done. nia. }
      destruct (run s ops) as [rs s'']. exact Htail.
  - pose proof (UnpinPgImp_counter s pid d) as Hs'.
    change (@UnpinPage t frame_id_t bpm s pid d) with (UnpinPgImp s pid d).
    destruct (UnpinPgImp s pid d) as [r s']. cbn [snd] in Hs'.
    specialize (Hkeep s' Hs' eq_refl).
    destruct (run s' ops) as [rs s'']. exact Hkeep.
  - pose proof (DeletePgImp_counter s pid) as Hs'.
    change (@DeletePage t frame_id_t bpm s pid) with (DeletePgImp s pid).
    destruct (DeletePgImp s pid) as [r s']. cbn [snd] in Hs'.
    specialize (Hkeep s' Hs' eq_refl).
    destruct (run s' ops) as [rs s'']. exact Hkeep.
  - pose proof (FlushPgImp_counter s pid) as Hs'.
    change (@FlushPage t frame_id_t bpm s pid) with (FlushPgImp s pid).
    destruct (FlushPgImp s pid) as [r s']. cbn [snd] in Hs'.
    specialize (Hkeep s' Hs' eq_refl).
    destruct (run s' ops) as [rs s'']. exact Hkeep.
  - pose proof (FlushAllPgsImp_counter s) as Hs'.
    change (@FlushAllPages t frame_id_t bpm s) with (FlushAllPgsImp s).
    specialize (Hkeep (FlushAllPgsImp s) Hs' eq_refl).
    destruct (run (FlushAllPgsImp s) ops) as [rs s'']. exact Hkeep.
Qed.

(** C9 (fails on the code as stated). On an instance with shard count
    2147483647 and shard index 1 the second page id produced by new_page is
    -2147483648: the 32-bit counter wrapped. The id passes the assertion of
    [ValidatePageId] (taken in [uint32_t]) but its residue modulo the shard
    count is not the shard index, and the routing of the parallel manager
    (taken in [size_t]) sends it to shard 3. *)
Lemma new_page_ids_wrap :
  new_page_ids (fst (run wide_shard [OpNewPage; OpNewPage])) = [1; -2147483648] ∧
  ValidatePageId wide_shard (-2147483648) = true ∧
  to_size_t (-2147483648) mod num_instances_ wide_shard = 3 ∧
  ¬ Forall (λ page_id, page_id mod num_instances_ wide_shard = instance_index_ wide_shard)
           (new_page_ids (fst (run wide_shard [OpNewPage; OpNewPage]))).
Proof.
  assert (Hids : new_page_ids (fst (run wide_shard [OpNewPage; OpNewPage]))
                 = [1; -2147483648]) by (vm_compute; reflexivity).
  split; [exact Hids|]. split; [vm_compute; reflexivity|].
  split; [vm_compute; reflexivity|].
  rewrite Hids. intros Hall.
  apply Forall_cons in Hall as [_ Hall]. apply Forall_cons in Hall as [H2 _].
  vm_compute in H2. discriminate H2.
Qed.

(** C9 (amended). On an instance constructed with shard count [N > 0] and
    shard index [idx < N], every page id produced by new_page in a run of
    public operations is non-negative, has residue [idx] modulo [N] and
    passes the assertion of [ValidatePageId], provided the ids stay within
    the 32-bit page id type: with [n] calls of new_page in the run,
    [idx + (n - 1) * N <= INT32_MAX]. *)
Theorem new_page_ids_mod (pool_size : nat) (N idx : Z) (disk : DiskManager)
    (ops : list op) :
  0 < N → 0 ≤ idx < N →
  idx + (Z.of_nat (count_new_page ops) - 1) * N ≤ INT32_MAX →
  Forall (λ page_id,
            0 ≤ page_id ∧ page_id mod N = idx ∧
            ValidatePageId (BufferPoolManagerInstance pool_size N idx disk) page_id = true)
         (new_page_ids (fst (run (BufferPoolManagerInstance pool_size N idx disk) ops))).
Proof.
  intros HN Hidx Hb.
  apply (run_new_page_ids N idx ops _ 0); [done|done|lia| |exact Hb].
  unfold counter_of, BufferPoolManagerInstance.
  cbn [num_instances_ instance_index_ next_page_id_]. do 2 f_equal. lia.
Qed.

Lemma new_page_ids_mod_witness :
  Forall (λ page_id,
            0 ≤ page_id ∧ page_id mod 3 = 1 ∧
            ValidatePageId (BufferPoolManagerInstance 2 3 1 new_DiskManager) page_id = true)
         (new_page_ids (fst (run (BufferPoolManagerInstance 2 3 1 new_DiskManager)
                               [OpNewPage; OpUnpin 1 true; OpNewPage; OpFetch 9;
                                OpNewPage]))).
Proof.
  apply (new_page_ids_mod 2 3 1 new_DiskManager
           [OpNewPage; OpUnpin 1 true; OpNewPage; OpFetch 9; OpNewPage]).
  - lia.
  - lia.
  - vm_compute. discriminate.
Defined.

End allocation_theorems.

(** ** The parallel buffer pool manager *)

Section parallel_theorems.

(** The first revision of [GetPoolSize] returns the number of instances, the
    second the number of frames. *)
Lemma GetPoolSize_first_revision n pool_size disk :
  GetPoolSize (ParallelBufferPoolManager.ParallelBufferPoolManager n pool_size disk) = n.
Proof.
  cbn. unfold ParallelBufferPoolManager.GetPoolSizeImp.
  cbn [ParallelBufferPoolManager.instances_
       ParallelBufferPoolManager.ParallelBufferPoolManager].
  by rewrite length_fmap, length_seq.
Qed.

Lemma total_capacity_fresh pool_size N disk (l : list nat) :
  total_capacity
    ((λ i, BufferPoolManagerInstance.BufferPoolManagerInstance pool_size N
             (Z.of_nat i) disk) <$> l) = (length l * pool_size)%nat.
Proof.
  unfold total_capacity. induction l as [|i l IH]; [done|].
  cbn [fmap list_fmap sum_list length] in *.
  cbn [BufferPoolManagerInstance.pool_size_
       BufferPoolManagerInstance.BufferPoolManagerInstance].
  rewrite IH. unfold id. lia.
Qed.

Lemma GetPoolSize_second_revision n pool_size disk :
  let m := ParallelVariant.ParallelBufferPoolManager n pool_size disk in
  ParallelVariant.GetPoolSizeImp m = (n * pool_size)%nat ∧
  ParallelVariant.GetPoolSizeImp m = total_capacity (ParallelVariant.instances_ m).
Proof.
  cbv zeta. unfold ParallelVariant.GetPoolSizeImp, ParallelVariant.ParallelBufferPoolManager.
  cbn [ParallelVariant.instances_ ParallelVariant.each_pool_size_].
  rewrite total_capacity_fresh. by rewrite length_fmap, length_seq.
Qed.

(** C7 (fails on the code). For a parallel manager of 2 instances with 5
    frames each, [GetPoolSize] of the first revision returns 2, the number of
    instances, while the sum of the capacities of the instances is 10; the
    second revision returns 10. *)
Theorem GetPoolSize_counts_instances :
  let m := ParallelBufferPoolManager.ParallelBufferPoolManager 2 5 new_DiskManager in
  GetPoolSize m = 2%nat ∧
  total_capacity (ParallelBufferPoolManager.instances_ m) = 10%nat ∧
  GetPoolSize m ≠ total_capacity (ParallelBufferPoolManager.instances_ m) ∧
  ParallelVariant.GetPoolSizeImp
    (ParallelVariant.ParallelBufferPoolManager 2 5 new_DiskManager) = 10%nat.
Proof.
  cbv zeta.
  assert (H1 : GetPoolSize (ParallelBufferPoolManager.ParallelBufferPoolManager 2 5
                              new_DiskManager) = 2%nat)
    by apply GetPoolSize_first_revision.
  assert (H2 : total_capacity (ParallelBufferPoolManager.instances_
                 (ParallelBufferPoolManager.ParallelBufferPoolManager 2 5 new_DiskManager))
               = 10%nat).
  { unfold ParallelBufferPoolManager.ParallelBufferPoolManager.
    cbn [ParallelBufferPoolManager.instances_]. by rewrite total_capacity_fresh. }
  split; [exact H1|]. split; [exact H2|]. split.
  - rewrite H1, H2. discriminate.
  - apply (GetPoolSize_second_revision 2 5 new_DiskManager).
Qed.

(** C6 (fails on the code). In the first revision of [NewPgImp] the loop runs
    from [startIdx] to the last instance and does not wrap around, and
    [startIdx] is stored only on success. With two instances of one frame
    each, after new_page, new_page, unpin(0), new_page, unpin(2) the cursor is
    1, instance 1 has no frame to give and instance 0 has one: the next
    new_page returns the failure result although instance 0 would return a
    page, and the cursor is still 1 after the call. The second revision
    returns a page of instance 0 from the same state and moves the cursor. *)
Theorem NewPgImp_no_wrap_around :
  fst (run two_shards shard1_full_run) =
    [RetNewPage (Some (0, (0%nat, 0))); RetNewPage (Some (1, (1%nat, 0)));
     RetBool true; RetNewPage (Some (2, (0%nat, 0))); RetBool true] ∧
  ParallelBufferPoolManager.startIdx shard1_full = 1%nat ∧
  fst (NewPage shard1_full) = None ∧
  ParallelBufferPoolManager.startIdx (snd (NewPage shard1_full)) = 1%nat ∧
  (λ bfi, fst (NewPage bfi)) <$> ParallelBufferPoolManager.instances_ shard1_full !! 0%nat
    = Some (Some (4, 0)) ∧
  fst (ParallelVariant.NewPgImp shard1_full_variant) = Some (4, (0%nat, 0)) ∧
  ParallelVariant.next_index_ (snd (ParallelVariant.NewPgImp shard1_full_variant)) = 1%nat.
Proof.
  split; [vm_compute; reflexivity|].
  split; [vm_compute; reflexivity|].
  split; [vm_compute; reflexivity|].
  split; [vm_compute; reflexivity|].
  split; [vm_compute; reflexivity|].
  split; vm_compute; reflexivity.
Qed.

End parallel_theorems.


(** ** More on the replacer *)

Section replacer_more.
Import LRUReplacer.
Implicit Types (r : LRUReplacer.t) (f g : frame_id_t) (l : list frame_id_t).

Lemma removelast_snoc l f : removelast (l ++ [f]) = l.
Proof. apply removelast_last. Qed.

Lemma last_snoc_Some l f : last (l ++ [f]) = Some f.
Proof. apply last_snoc. Qed.

Lemma Victim_snoc c l f : Victim (mk c (l ++ [f])) = (Some f, mk c l).
Proof.
  unfold Victim. cbn [nodes capacity_].
  destruct (l ++ [f]) as [|x l'] eqn:E.
  - by destruct l.
  - rewrite <- E. unfold RemoveLast. by rewrite last_snoc_Some, removelast_snoc.
Qed.

Lemma filter_ne_notin l f : f ∉ l → filter (λ g, g ≠ f) l = l.
Proof.
  induction l as [|x l IH]; [done|]. intros [Hx Hl]%not_elem_of_cons.
  rewrite filter_cons_True by congruence. by rewrite IH.
Qed.

Lemma RemoveOne_filter l f : NoDup l → RemoveOne f l = filter (λ g, g ≠ f) l.
Proof.
  induction 1 as [|x l Hx Hl IH]; [done|]. cbn [RemoveOne].
  rewrite filter_cons. destruct (decide (x = f)) as [->|Hne].
  - destruct (decide (f ≠ f)); [done|]. by rewrite filter_ne_notin.
  - destruct (decide (x ≠ f)); [|done]. by rewrite IH.
Qed.

Lemma length_RemoveOne l f : f ∈ l → S (length (RemoveOne f l)) = length l.
Proof.
  induction l as [|x l IH]; [by intros ?%elem_of_nil|]. cbn [RemoveOne length].
  destruct (decide (x = f)); [done|].
  intros [?|Hin]%elem_of_cons; [congruence|]. cbn [length]. by rewrite IH.
Qed.

(** [Victim] fails exactly on a replacer that tracks no frame, and then
    changes nothing. *)
Theorem Victim_none_iff r :
  (fst (Victim r) = None ↔ Size r = 0%nat) ∧
  (Size r = 0%nat → Victim r = (None, r)).
Proof.
  destruct r as [c l]. unfold Size. cbn [nodes].
  induction l as [|x l _] using rev_ind.
  - by split.
  - rewrite Victim_snoc, length_app. cbn. split; [split; [done|lia]|lia].
Qed.

Lemma Victim_none_iff_witness :
  Victim (LRUReplacer 4) = (None, LRUReplacer 4).
Proof. apply (proj2 (Victim_none_iff (LRUReplacer 4))). reflexivity. Defined.

(** [Victim] takes the frame at the tail of the list, the one tracked the
    longest: it is returned and untracked, the other frames stay tracked in
    their order and the size drops by one. *)
Theorem Victim_least_recent r l f :
  wf r → nodes r = l ++ [f] →
  Victim r = (Some f, mk (capacity_ r) l) ∧
  ¬ tracked (snd (Victim r)) f ∧
  S (Size (snd (Victim r))) = Size r ∧
  ∀ g, g ≠ f → (tracked (snd (Victim r)) g ↔ tracked r g).
Proof.
  destruct r as [c l0]. unfold wf, tracked, Size. cbn [nodes capacity_].
  intros Hnd ->. rewrite Victim_snoc. cbn [snd nodes].
  apply NoDup_app in Hnd as (_ & Hdisj & _).
  split_and!; [done| | |].
  - intros Hin. apply (Hdisj f Hin). apply elem_of_cons. by left.
  - rewrite length_app. cbn. lia.
  - intros g Hg. rewrite elem_of_app, list_elem_of_singleton. tauto.
Qed.

Lemma Victim_least_recent_witness :
  Victim (mk 3 [7; 5; 2]) = (Some 2, mk 3 [7; 5]).
Proof.
  apply (Victim_least_recent (mk 3 [7; 5; 2]) [7; 5] 2).
  - apply (bool_decide_unpack _). vm_compute. exact I.
  - reflexivity.
Defined.

(** [Pin] removes the frame and nothing else: the list keeps its other frames
    in their order, the capacity is unchanged, a frame that was not tracked
    leaves the replacer as it is, and a tracked frame makes the size drop by
    one. *)
Theorem Pin_removes_frame r f :
  wf r →
  nodes (Pin r f) = filter (λ g, g ≠ f) (nodes r) ∧
  capacity_ (Pin r f) = capacity_ r ∧
  (¬ tracked r f → Pin r f = r) ∧
  (tracked r f → S (Size (Pin r f)) = Size r).
Proof.
  intros Hwf. split_and!.
  - unfold Pin. destruct (cache_count r f) eqn:Hc; cbn [nodes].
    + by apply RemoveOne_filter.
    + apply cache_count_false in Hc. by rewrite filter_ne_notin.
  - apply Pin_capacity.
  - intros Hn. apply cache_count_false in Hn. unfold Pin. by rewrite Hn.
  - intros Ht. unfold Pin, Size. pose proof Ht as Hc.
    apply cache_count_true in Hc. rewrite Hc. cbn [nodes].
    by apply length_RemoveOne.
Qed.

Lemma Pin_removes_frame_witness :
  nodes (Pin (mk 3 [7; 5; 2]) 5) = [7; 2] ∧ Pin (mk 3 [7; 5; 2]) 9 = mk 3 [7; 5; 2].
Proof.
  pose proof (Pin_removes_frame (mk 3 [7; 5; 2]) 5) as H5.
  pose proof (Pin_removes_frame (mk 3 [7; 5; 2]) 9) as H9.
  assert (Hwf : wf (mk 3 [7; 5; 2])) by (apply (bool_decide_unpack _); vm_compute; exact I).
  destruct (H5 Hwf) as (Hn & _). destruct (H9 Hwf) as (_ & _ & Hid & _).
  split; [exact Hn|]. apply Hid.
  unfold tracked. cbn [nodes]. apply (bool_decide_unpack _). vm_compute. exact I.
Defined.

(** [Unpin] of a frame that is not tracked, below capacity: the frame is
    linked at the head (most recent), in front of the frames already
    tracked. *)
Theorem Unpin_adds_at_head r f :
  ¬ tracked r f → (Size r < capacity_ r)%nat →
  Unpin r f = mk (capacity_ r) (f :: nodes r) ∧
  Size (Unpin r f) = S (Size r).
Proof.
  intros Hn Hlt. apply cache_count_false in Hn. unfold Unpin. rewrite Hn.
  destruct (Nat.leb_spec (capacity_ r) (Size r)) as [?|_]; [lia|]. done.
Qed.

Lemma Unpin_adds_at_head_witness :
  Unpin (mk 3 [7; 5]) 2 = mk 3 [2; 7; 5].
Proof.
  apply (Unpin_adds_at_head (mk 3 [7; 5]) 2).
  - unfold tracked. cbn [nodes]. apply (bool_decide_unpack _). vm_compute. exact I.
  - cbn. lia.
Defined.

(** [Unpin] of a frame that is not tracked, on a full replacer: the frame at
    the tail is dropped from tracking and the new frame is linked at the
    head; the size does not change. *)
Theorem Unpin_full_drops_tail r f l g :
  ¬ tracked r f → (capacity_ r ≤ Size r)%nat → nodes r = l ++ [g] →
  Unpin r f = mk (capacity_ r) (f :: l) ∧
  Size (Unpin r f) = Size r.
Proof.
  intros Hn Hle Hl. apply cache_count_false in Hn. unfold Unpin. rewrite Hn.
  destruct (Nat.leb_spec (capacity_ r) (Size r)) as [_|?]; [|lia].
  unfold RemoveLast, AddToFirst, Size. cbn [snd nodes]. rewrite Hl.
  rewrite removelast_snoc, length_app. cbn. split; [done|lia].
Qed.

Lemma Unpin_full_drops_tail_witness :
  Unpin (mk 2 [7; 5]) 2 = mk 2 [2; 7].
Proof.
  apply (Unpin_full_drops_tail (mk 2 [7; 5]) 2 [7] 5).
  - unfold tracked. cbn [nodes]. apply (bool_decide_unpack _). vm_compute. exact I.
  - cbn. lia.
  - reflexivity.
Defined.

Lemma Size_Unpin_le r f :
  (0 < capacity_ r)%nat → (Size r ≤ capacity_ r)%nat →
  (Size (Unpin r f) ≤ capacity_ r)%nat.
Proof.
  intros Hc Hle. unfold Unpin. destruct (cache_count r f); [done|].
  destruct (Nat.leb_spec (capacity_ r) (Size r)) as [Hge|Hlt];
    unfold Size, AddToFirst, RemoveLast in *; cbn [nodes snd length].
  - induction (nodes r) as [|x l _] using rev_ind; [cbn; lia|].
    rewrite removelast_snoc. rewrite length_app in Hle. cbn in Hle. lia.
  - lia.
Qed.

Lemma Size_Pin_le r f : (Size (Pin r f) ≤ Size r)%nat.
Proof.
  unfold Pin. destruct (cache_count r f) eqn:Hc; [|done].
  apply cache_count_true in Hc. unfold Size. cbn [nodes].
  pose proof (length_RemoveOne (nodes r) f Hc). lia.
Qed.

Lemma Size_Victim_le r : (Size (snd (Victim r)) ≤ Size r)%nat.
Proof.
  destruct r as [c l]. unfold Size. induction l as [|x l _] using rev_ind; [done|].
  rewrite Victim_snoc. cbn [snd nodes]. rewrite length_app. lia.
Qed.

Lemma Victim_capacity r : capacity_ (snd (Victim r)) = capacity_ r.
Proof.
  destruct r as [c l]. induction l as [|x l _] using rev_ind; [done|].
  by rewrite Victim_snoc.
Qed.

Lemma replacer_run_inv c ops : ∀ r,
  (0 < c)%nat → capacity_ r = c → wf r → (Size r ≤ c)%nat →
  capacity_ (replacer_run r ops) = c ∧ wf (replacer_run r ops) ∧
  (Size (replacer_run r ops) ≤ c)%nat.
Proof.
  induction ops as [|o ops IH]; intros r Hc Hcap Hwf Hle; [done|].
  unfold replacer_run in *. cbn [foldl]. apply IH; [done| | |].
  - destruct o; cbn [replacer_step];
      [by rewrite Victim_capacity|by rewrite Pin_capacity|by rewrite Unpin_capacity].
  - destruct o; cbn [replacer_step]; [by apply wf_Victim|by apply wf_Pin|by apply wf_Unpin].
  - destruct o; cbn [replacer_step].
    + pose proof (Size_Victim_le r). lia.
    + pose proof (Size_Pin_le r frame_id). lia.
    + subst c. by apply Size_Unpin_le.
Qed.

(** Whatever calls of [Victim], [Pin] and [Unpin] are made on a new replacer
    of capacity [c > 0], no frame has two nodes and the size never exceeds
    the capacity. *)
Theorem replacer_bounded (c : nat) (ops : list replacer_op) :
  (0 < c)%nat →
  wf (replacer_run (LRUReplacer c) ops) ∧
  (Size (replacer_run (LRUReplacer c) ops) ≤ c)%nat ∧
  capacity_ (replacer_run (LRUReplacer c) ops) = c.
Proof.
  intros Hc.
  destruct (replacer_run_inv c ops (LRUReplacer c) Hc eq_refl (wf_new c))
    as (H1 & H2 & H3); [cbn; lia|]. done.
Qed.

Lemma replacer_bounded_witness :
  Nat.le (Size (replacer_run (LRUReplacer 2)
                  [RUnpin 1; RUnpin 2; RUnpin 3; RPin 2; RUnpin 1; RVictim; RUnpin 4]))
         2.
Proof.
  apply (replacer_bounded 2
           [RUnpin 1; RUnpin 2; RUnpin 3; RPin 2; RUnpin 1; RVictim; RUnpin 4]).
  lia.
Defined.

Lemma unpin_all_nodes frames : ∀ r,
  NoDup (frames ++ nodes r) →
  (length frames + Size r ≤ capacity_ r)%nat →
  unpin_all r frames = mk (capacity_ r) (rev frames ++ nodes r).
Proof.
  induction frames as [|f frames IH]; intros r Hnd Hlen.
  - by destruct r.
  - unfold unpin_all in *. cbn [foldl].
    cbn [app] in Hnd. apply NoDup_cons in Hnd as [Hf Hnd].
    assert (Hn : ¬ tracked r f).
    { unfold tracked. intros Hin. apply Hf. apply elem_of_app. by right. }
    cbn [length] in Hlen.
    assert (Hu : Unpin r f = mk (capacity_ r) (f :: nodes r)).
    { apply cache_count_false in Hn. unfold Unpin. rewrite Hn.
      destruct (Nat.leb_spec (capacity_ r) (Size r)) as [?|_]; [lia|]. done. }
    rewrite Hu, IH; cbn [nodes capacity_ Size].
    + cbn [rev]. by rewrite <- app_assoc.
    + apply NoDup_app. apply NoDup_app in Hnd as (H1 & H2 & H3).
      split_and!; [done| |].
      * intros x Hx [->|Hin]%elem_of_cons; [|by apply (H2 x)].
        apply Hf. apply elem_of_app. by left.
      * apply NoDup_cons. split; [|done]. intros Hin. apply Hf.
        apply elem_of_app. by right.
    + unfold Size in *. cbn [nodes capacity_ length] in *. lia.
Qed.

Lemma victims_rev c frames :
  victims (length frames) (mk c (rev frames)) = (Some <$> frames, mk c []).
Proof.
  induction frames as [|f frames IH]; [done|].
  cbn [length victims rev]. rewrite Victim_snoc, IH. done.
Qed.

(** The replacer is first-in first-out: when distinct frames are unpinned
    into a new replacer that has room for them, successive calls of [Victim]
    return them in the order in which they were unpinned, and leave the
    replacer empty. *)
Theorem victims_in_unpin_order (c : nat) (frames : list frame_id_t) :
  NoDup frames → (length frames ≤ c)%nat →
  victims (length frames) (unpin_all (LRUReplacer c) frames) =
    (Some <$> frames, LRUReplacer c).
Proof.
  intros Hnd Hlen.
  rewrite (unpin_all_nodes frames (LRUReplacer c)); cbn [nodes capacity_ LRUReplacer Size length].
  - rewrite app_nil_r. apply victims_rev.
  - by rewrite app_nil_r.
  - lia.
Qed.

Lemma victims_in_unpin_order_witness :
  victims 3 (unpin_all (LRUReplacer 4) [5; 1; 3]) = ([Some 5; Some 1; Some 3], LRUReplacer 4).
Proof.
  apply (victims_in_unpin_order 4 [5; 1; 3]).
  - apply (bool_decide_unpack _). vm_compute. exact I.
  - cbn. lia.
Defined.

End replacer_more.

(** ** The invariant of the instance *)

Section invariant_proofs.
Import BufferPoolManagerInstance.
Implicit Types (s : t) (f g : frame_id_t) (p q : Page) (ps : list Page).

Lemma page_at_in_range ps f :
  0 ≤ f < Z.of_nat (length ps) → ∃ p, page_at ps f = Some p.
Proof.
  intros [H0 Hlt]. unfold page_at. destruct (decide (0 ≤ f)); [|done].
  apply lookup_lt_is_Some. lia.
Qed.

Lemma page_at_set_page_cases ps f p' g q :
  page_at (set_page ps f p') g = Some q →
  (g = f ∧ q = p') ∨ (g ≠ f ∧ page_at ps g = Some q).
Proof.
  intros H. destruct (decide (g = f)) as [->|Hne].
  - left. split; [done|].
    destruct (page_at ps f) as [p|] eqn:E.
    + rewrite (page_at_set_page_eq _ _ _ _ E) in H. congruence.
    + unfold page_at, set_page in *. destruct (decide (0 ≤ f)); [|done].
      apply lookup_lt_Some in H. rewrite length_insert in H.
      apply lookup_ge_None in E. lia.
  - right. split; [done|]. by rewrite page_at_set_page_ne in H.
Qed.

(** A list of distinct frame ids below [n] has at most [n] elements. *)
Lemma frames_length_le (l : list frame_id_t) (n : nat) :
  NoDup l → (∀ f, f ∈ l → 0 ≤ f < Z.of_nat n) → (length l ≤ n)%nat.
Proof.
  intros Hnd Hr.
  assert (Hsub : l ⊆+ (Z.of_nat <$> seq 0 n)).
  { apply NoDup_submseteq; [done|]. intros f Hf. apply Hr in Hf.
    apply list_elem_of_fmap. exists (Z.to_nat f). split; [lia|].
    apply elem_of_seq. lia. }
  apply submseteq_length in Hsub. by rewrite length_fmap, length_seq in Hsub.
Qed.

Lemma inv_with_disk s d : instance_inv s → instance_inv (with_disk s d).
Proof. intros []. by constructor. Qed.

Lemma inv_with_next_page_id s n : instance_inv s → instance_inv (with_next_page_id s n).
Proof. intros []. by constructor. Qed.

(** Changing the bytes and the dirty flag of a frame that is not free. *)
Lemma inv_update_page s f p p' :
  instance_inv s → page_at (pages_ s) f = Some p →
  page_id_ p' = page_id_ p → pin_count_ p' = pin_count_ p →
  (f ∈ free_list_ s → is_dirty_ p' = false) →
  instance_inv (with_pages s (set_page (pages_ s) f p')).
Proof.
  intros [Hlen Hcap Hnd Hr Ht Hpin Hfree Htr Hev] Hp Hid Hpc Hd.
  constructor; cbn [pages_ page_table_ free_list_ replacer_ pool_size_ with_pages].
  - by rewrite length_set_page.
  - done.
  - done.
  - done.
  - intros pid g Hg. destruct (Ht pid g Hg) as (Hnf & q & Hq & Hqid).
    split; [done|]. destruct (decide (g = f)) as [->|Hne].
    + exists p'. split; [by apply page_at_set_page_eq with p|]. congruence.
    + exists q. by rewrite page_at_set_page_ne.
  - intros g q [[-> ->]|[Hne Hq]]%page_at_set_page_cases.
    + rewrite Hpc. by apply (Hpin f).
    + by apply (Hpin g).
  - intros g q Hg [[-> ->]|[Hne Hq]]%page_at_set_page_cases.
    + destruct (Hfree f p Hg Hp) as [H0 _]. split; [congruence|by apply Hd].
    + by apply (Hfree g).
  - intros g q Hg [[-> ->]|[Hne Hq]]%page_at_set_page_cases.
    + rewrite Hpc. by apply (Htr f).
    + by apply (Htr g).
  - intros pid g q Hg [[-> ->]|[Hne Hq]]%page_at_set_page_cases Hq0.
    + apply (Hev pid f p); [done|done|congruence].
    + by apply (Hev pid g q).
Qed.

Lemma get_page_None ps f : page_at ps f = None → get_page ps f = new_Page.
Proof. unfold get_page. by intros ->. Qed.

Lemma inv_write_back s f : instance_inv s → instance_inv (write_back s f).
Proof.
  intros Hinv. unfold write_back.
  destruct (page_at (pages_ s) f) as [p|] eqn:Hp.
  - rewrite (get_page_Some _ _ _ Hp). destruct (is_dirty_ p); [|done].
    apply (inv_update_page (with_disk s _) f p); [by apply inv_with_disk|done..].
  - rewrite (get_page_None _ _ Hp). exact Hinv.
Qed.

Lemma inv_FlushAllPgsImp s : instance_inv s → instance_inv (FlushAllPgsImp s).
Proof.
  unfold FlushAllPgsImp. generalize (seq 0 (pool_size_ s)). intros l.
  revert s. induction l as [|i l IH]; intros s Hinv; [done|].
  cbn [foldl]. apply IH. by apply inv_write_back.
Qed.

Lemma inv_FlushPgImp s page_id :
  instance_inv s → instance_inv (snd (FlushPgImp s page_id)).
Proof.
  intros Hinv. unfold FlushPgImp.
  destruct (page_table_ s !! page_id) as [f|] eqn:Hpt; [|done].
  destruct (inv_table s Hinv page_id f Hpt) as (Hnf & p & Hp & Hid).
  rewrite (get_page_Some _ _ _ Hp). destruct (is_dirty_ p); [|done].
  cbn [snd].
  apply (inv_update_page (with_disk s _) f p); [by apply inv_with_disk|done..].
Qed.

Lemma resident_frame_range s page_id f :
  instance_inv s → page_table_ s !! page_id = Some f →
  0 ≤ f < Z.of_nat (pool_size_ s).
Proof.
  intros Hinv Hpt. destruct (inv_table s Hinv page_id f Hpt) as (_ & p & Hp & _).
  apply page_at_Some_range in Hp. rewrite (inv_length s Hinv) in Hp. lia.
Qed.

(** A frame that is neither free nor tracked leaves room in the replacer. *)
Lemma replacer_has_room s f :
  instance_inv s → 0 ≤ f < Z.of_nat (pool_size_ s) →
  f ∉ free_list_ s → ¬ LRUReplacer.tracked (replacer_ s) f →
  (LRUReplacer.Size (replacer_ s) < LRUReplacer.capacity_ (replacer_ s))%nat.
Proof.
  intros Hinv Hf Hnf Hnt. rewrite (inv_capacity s Hinv).
  assert (Hle : (length (f :: free_list_ s ++ LRUReplacer.nodes (replacer_ s))
                 ≤ pool_size_ s)%nat).
  { apply frames_length_le.
    - apply NoDup_cons. split; [|apply (inv_nodup s Hinv)].
      rewrite elem_of_app. unfold LRUReplacer.tracked in Hnt. tauto.
    - intros g [->|Hg]%elem_of_cons; [done|]. by apply (inv_range s Hinv). }
  cbn [length] in Hle. rewrite length_app in Hle. unfold LRUReplacer.Size. lia.
Qed.

Lemma inv_UnpinPgImp s page_id is_dirty :
  instance_inv s → instance_inv (snd (UnpinPgImp s page_id is_dirty)).
Proof.
  intros Hinv.
  destruct (page_table_ s !! page_id) as [f|] eqn:Hpt;
    [|by rewrite UnpinPgImp_not_resident].
  destruct (inv_table s Hinv page_id f Hpt) as (Hnf & p & Hp & Hid).
  assert (Hres : resident s page_id f p) by done.
  destruct (Z.le_gt_cases (pin_count_ p) 0) as [Hz|Hpos].
  - rewrite (UnpinPgImp_zero s page_id is_dirty f p Hres Hz). cbn [snd].
    by apply (inv_update_page s f p).
  - rewrite (UnpinPgImp_pos s page_id is_dirty f p Hres ltac:(lia)). cbn [snd].
    assert (Hnt : ¬ LRUReplacer.tracked (replacer_ s) f).
    { intros Ht. pose proof (inv_tracked s Hinv f p Ht Hp). lia. }
    pose proof (resident_frame_range s page_id f Hinv Hpt) as Hfr.
    pose proof (replacer_has_room s f Hinv Hfr Hnf Hnt) as Hroom.
    set (p' := mkPage (data_ p) (page_id_ p) (pin_count_ p - 1) (is_dirty_ p || is_dirty)).
    destruct Hinv as [Hlen Hcap Hnd Hr Ht Hpin Hfree Htr Hev].
    cbv zeta. destruct (Z.eqb_spec (pin_count_ p - 1) 0) as [H0|H0].
    + assert (Hu : LRUReplacer.Unpin (replacer_ s) f
                   = LRUReplacer.mk (LRUReplacer.capacity_ (replacer_ s))
                       (f :: LRUReplacer.nodes (replacer_ s))).
      { apply cache_count_false in Hnt. unfold LRUReplacer.Unpin. rewrite Hnt.
        destruct (Nat.leb_spec (LRUReplacer.capacity_ (replacer_ s))
                    (LRUReplacer.Size (replacer_ s))) as [?|_]; [lia|]. done. }
      rewrite Hu.
      constructor;
        cbn [pages_ page_table_ free_list_ replacer_ pool_size_ with_pages
             with_replacer LRUReplacer.nodes LRUReplacer.capacity_].
      * by rewrite length_set_page.
      * done.
      * apply NoDup_app. apply NoDup_app in Hnd as (H1 & H2 & H3).
        split_and!; [done| |].
        -- intros x Hx [->|Hin]%elem_of_cons; [done|by apply (H2 x)].
        -- apply NoDup_cons. split; [exact Hnt|done].
      * intros g Hg. apply elem_of_app in Hg as [Hg|[->|Hg]%elem_of_cons];
          [|done|]; apply Hr; apply elem_of_app; tauto.
      * intros pid g Hg. destruct (Ht pid g Hg) as (Hngf & q & Hq & Hqid).
        split; [done|]. destruct (decide (g = f)) as [->|Hne].
        -- exists p'. split; [by apply page_at_set_page_eq with p|].
           cbn [page_id_ p']. congruence.
        -- exists q. by rewrite page_at_set_page_ne.
      * intros g q [[-> ->]|[Hne Hq]]%page_at_set_page_cases.
        -- cbn [pin_count_ p']. lia.
        -- by apply (Hpin g).
      * intros g q Hg [[-> ->]|[Hne Hq]]%page_at_set_page_cases; [done|].
        by apply (Hfree g).
      * unfold LRUReplacer.tracked. cbn [LRUReplacer.nodes].
        intros g q Hg [[-> ->]|[Hne Hq]]%page_at_set_page_cases; [done|].
        apply elem_of_cons in Hg as [?|Hg]; [done|]. by apply (Htr g).
      * unfold LRUReplacer.tracked. cbn [LRUReplacer.nodes].
        intros pid g q Hg [[-> ->]|[Hne Hq]]%page_at_set_page_cases Hq0.
        -- apply elem_of_cons. by left.
        -- apply elem_of_cons. right. by apply (Hev pid g q).
    + constructor;
        cbn [pages_ page_table_ free_list_ replacer_ pool_size_ with_pages].
      * by rewrite length_set_page.
      * done.
      * done.
      * done.
      * intros pid g Hg. destruct (Ht pid g Hg) as (Hngf & q & Hq & Hqid).
        split; [done|]. destruct (decide (g = f)) as [->|Hne].
        -- exists p'. split; [by apply page_at_set_page_eq with p|].
           cbn [page_id_ p']. congruence.
        -- exists q. by rewrite page_at_set_page_ne.
      * intros g q [[-> ->]|[Hne Hq]]%page_at_set_page_cases.
        -- cbn [pin_count_ p']. lia.
        -- by apply (Hpin g).
      * intros g q Hg [[-> ->]|[Hne Hq]]%page_at_set_page_cases; [done|].
        by apply (Hfree g).
      * intros g q Hg [[-> ->]|[Hne Hq]]%page_at_set_page_cases; [done|].
        by apply (Htr g).
      * intros pid g q Hg [[-> ->]|[Hne Hq]]%page_at_set_page_cases Hq0; [done|].
        by apply (Hev pid g q).
Qed.

Lemma Pin_nodes (r : LRUReplacer.t) f :
  LRUReplacer.wf r →
  LRUReplacer.nodes (LRUReplacer.Pin r f) = filter (λ g, g ≠ f) (LRUReplacer.nodes r).
Proof.
  intros Hwf. unfold LRUReplacer.Pin.
  destruct (LRUReplacer.cache_count r f) eqn:Hc; cbn [LRUReplacer.nodes].
  - by apply RemoveOne_filter.
  - apply cache_count_false in Hc. by rewrite filter_ne_notin.
Qed.

Lemma inv_wf s : instance_inv s → LRUReplacer.wf (replacer_ s).
Proof. intros Hinv. pose proof (inv_nodup s Hinv) as H. by apply NoDup_app in H as (_ & _ & ?). Qed.

(** The free list extended by [extra] and the replacer without [f]. *)
Lemma NoDup_free_filter (fl nodes extra : list frame_id_t) f :
  NoDup (fl ++ nodes) → NoDup extra → (∀ x, x ∈ extra → x = f) → f ∉ fl →
  NoDup ((fl ++ extra) ++ filter (λ g, g ≠ f) nodes).
Proof.
  intros Hnd Hex Hexf Hnf. apply NoDup_app in Hnd as (H1 & H2 & H3).
  apply NoDup_app. split_and!.
  - apply NoDup_app. split_and!; [done| |done].
    intros x Hx Hx'. apply Hexf in Hx'. by subst.
  - intros x [Hx|Hx]%elem_of_app [Hne Hin]%list_elem_of_filter.
    + by apply (H2 x).
    + by apply Hexf in Hx.
  - by apply NoDup_filter.
Qed.

Lemma inv_FetchPgImp_hit s page_id f p :
  instance_inv s → resident s page_id f p →
  instance_inv
    (with_pages (with_replacer s (LRUReplacer.Pin (replacer_ s) f))
       (set_page (pages_ s) f
          (mkPage (data_ p) (page_id_ p) (pin_count_ p + 1) (is_dirty_ p)))).
Proof.
  intros Hinv [Hpt Hp].
  pose proof (inv_wf s Hinv) as Hwf.
  destruct (inv_table s Hinv page_id f Hpt) as (Hnf & _).
  set (p' := mkPage (data_ p) (page_id_ p) (pin_count_ p + 1) (is_dirty_ p)).
  destruct Hinv as [Hlen Hcap Hnd Hr Ht Hpin Hfree Htr Hev].
  pose proof (Hpin f p Hp) as Hp0.
  constructor;
    cbn [pages_ page_table_ free_list_ replacer_ pool_size_ with_pages with_replacer];
    unfold LRUReplacer.tracked; rewrite ?(Pin_nodes _ f Hwf), ?Pin_capacity.
  - by rewrite length_set_page.
  - done.
  - rewrite <- (app_nil_r (free_list_ s)) at 1.
    apply NoDup_free_filter; [done|constructor|by intros x ?%elem_of_nil|done].
  - intros g [Hg|[_ Hg]%list_elem_of_filter]%elem_of_app;
      apply Hr; apply elem_of_app; tauto.
  - intros pid g Hg. destruct (Ht pid g Hg) as (Hngf & q & Hq & Hqid).
    split; [done|]. destruct (decide (g = f)) as [->|Hne].
    + exists p'. split; [by apply page_at_set_page_eq with p|].
      cbn [page_id_ p']. congruence.
    + exists q. by rewrite page_at_set_page_ne.
  - intros g q [[-> ->]|[Hne Hq]]%page_at_set_page_cases.
    + cbn [pin_count_ p']. lia.
    + by apply (Hpin g).
  - intros g q Hg [[-> ->]|[Hne Hq]]%page_at_set_page_cases; [done|].
    by apply (Hfree g).
  - intros g q [Hne Hg]%list_elem_of_filter [[-> ->]|[_ Hq]]%page_at_set_page_cases;
      [done|]. by apply (Htr g).
  - intros pid g q Hg [[-> ->]|[Hne Hq]]%page_at_set_page_cases Hq0.
    + cbn [pin_count_ p'] in Hq0. lia.
    + apply list_elem_of_filter. split; [done|]. by apply (Hev pid g q).
Qed.

Lemma DeletePgImp_not_resident s page_id :
  page_table_ s !! page_id = None →
  DeletePgImp s page_id = (true, with_disk s (DeallocatePage (disk_manager_ s) page_id)).
Proof. intros Hn. unfold DeletePgImp. cbn [page_table_ with_disk]. by rewrite Hn. Qed.

Lemma DeletePgImp_pinned s page_id f p :
  resident s page_id f p → 0 < pin_count_ p →
  DeletePgImp s page_id = (false, with_disk s (DeallocatePage (disk_manager_ s) page_id)).
Proof.
  intros [Hpt Hp] Hpin. unfold DeletePgImp. cbn [page_table_ pages_ with_disk].
  rewrite Hpt, (get_page_Some _ _ _ Hp).
  by destruct (Z.ltb_spec 0 (pin_count_ p)) as [_|?]; [|lia].
Qed.

Lemma DeletePgImp_unpinned s page_id f p :
  resident s page_id f p → pin_count_ p ≤ 0 →
  DeletePgImp s page_id =
    (true,
     mk (pool_size_ s) (num_instances_ s) (instance_index_ s) (next_page_id_ s)
        (set_page (pages_ s) f (mkPage zero_data (page_id_ p) (pin_count_ p) false))
        (delete page_id (page_table_ s))
        (free_list_ s ++ [f])
        (LRUReplacer.Pin (replacer_ s) f)
        (DeallocatePage (disk_manager_ s) page_id)).
Proof.
  intros [Hpt Hp] Hpin. unfold DeletePgImp. cbn [page_table_ pages_ with_disk].
  rewrite Hpt, (get_page_Some _ _ _ Hp).
  by destruct (Z.ltb_spec 0 (pin_count_ p)) as [?|_]; [lia|].
Qed.

Lemma inv_DeletePgImp s page_id :
  instance_inv s → instance_inv (snd (DeletePgImp s page_id)).
Proof.
  intros Hinv.
  destruct (page_table_ s !! page_id) as [f|] eqn:Hpt;
    [|rewrite DeletePgImp_not_resident by done; by apply inv_with_disk].
  destruct (inv_table s Hinv page_id f Hpt) as (Hnf & p & Hp & Hid).
  assert (Hres : resident s page_id f p) by done.
  destruct (Z.le_gt_cases (pin_count_ p) 0) as [Hz|Hpos];
    [|rewrite (DeletePgImp_pinned s page_id f p Hres) by lia; by apply inv_with_disk].
  rewrite (DeletePgImp_unpinned s page_id f p Hres Hz). cbn [snd].
  pose proof (inv_wf s Hinv) as Hwf.
  destruct Hinv as [Hlen Hcap Hnd Hr Ht Hpin Hfree Htr Hev].
  pose proof (Hpin f p Hp) as Hp0.
  constructor;
    cbn [pages_ page_table_ free_list_ replacer_ pool_size_];
    unfold LRUReplacer.tracked; rewrite ?(Pin_nodes _ f Hwf), ?Pin_capacity.
  - by rewrite length_set_page.
  - done.
  - apply NoDup_free_filter; [done|apply NoDup_singleton| |done].
    by intros x ->%list_elem_of_singleton.
  - intros g [[Hg| ->%list_elem_of_singleton]%elem_of_app|[_ Hg]%list_elem_of_filter]%elem_of_app.
    + apply Hr. apply elem_of_app. tauto.
    + apply page_at_Some_range in Hp. lia.
    + apply Hr. apply elem_of_app. tauto.
  - intros pid g [Hne Hg]%lookup_delete_Some.
    destruct (Ht pid g Hg) as (Hngf & q & Hq & Hqid).
    assert (Hgf : g ≠ f).
    { intros ->. rewrite Hp in Hq. injection Hq as <-. congruence. }
    split.
    + rewrite elem_of_app, list_elem_of_singleton. tauto.
    + exists q. by rewrite page_at_set_page_ne.
  - intros g q [[-> ->]|[Hne Hq]]%page_at_set_page_cases.
    + done.
    + by apply (Hpin g).
  - intros g q Hg [[-> ->]|[Hne Hq]]%page_at_set_page_cases.
    + cbn [pin_count_ is_dirty_]. split; [lia|done].
    + apply elem_of_app in Hg as [Hg|Hg%list_elem_of_singleton]; [|done].
      by apply (Hfree g).
  - intros g q [Hne Hg]%list_elem_of_filter [[-> ->]|[_ Hq]]%page_at_set_page_cases;
      [done|]. by apply (Htr g).
  - intros pid g q [Hne Hg]%lookup_delete_Some Hq' Hq0.
    destruct (Ht pid g Hg) as (Hngf & q0 & Hq0' & Hqid).
    assert (Hgf : g ≠ f).
    { intros ->. rewrite Hp in Hq0'. injection Hq0' as <-. congruence. }
    rewrite page_at_set_page_ne in Hq' by done.
    apply list_elem_of_filter. split; [done|]. by apply (Hev pid g q).
Qed.

(** Installing a page in a frame [f] taken from the free list or from the
    replacer: [fl'] and [r'] are the free list and the replacer without
    [f]. *)
Lemma inv_install s f p page_id d fl' r' disk' next' :
  instance_inv s → page_at (pages_ s) f = Some p →
  LRUReplacer.capacity_ r' = pool_size_ s →
  NoDup (f :: fl' ++ LRUReplacer.nodes r') →
  (∀ g, g ∈ fl' → g ∈ free_list_ s) →
  (∀ g, g ∈ LRUReplacer.nodes r' → g ∈ LRUReplacer.nodes (replacer_ s)) →
  (∀ g, g ≠ f → g ∈ LRUReplacer.nodes (replacer_ s) → g ∈ LRUReplacer.nodes r') →
  instance_inv
    (mk (pool_size_ s) (num_instances_ s) (instance_index_ s) next'
        (set_page (pages_ s) f (mkPage d page_id 1 false))
        (<[page_id := f]> (delete (page_id_ p) (page_table_ s)))
        fl' r' disk').
Proof.
  intros [Hlen Hcap Hnd Hr Ht Hpin Hfree Htr Hev] Hp Hcap' Hnd' Hfl Hsub Hkeep.
  apply NoDup_cons in Hnd' as [Hf Hnd'].
  rewrite elem_of_app in Hf.
  assert (Hold : ∀ pid g, pid ≠ page_id →
            <[page_id := f]> (delete (page_id_ p) (page_table_ s)) !! pid = Some g →
            page_table_ s !! pid = Some g ∧ g ≠ f).
  { intros pid g Hne Hg. rewrite lookup_insert_ne in Hg by done.
    apply lookup_delete_Some in Hg as [Hne' Hg]. split; [done|].
    intros ->. destruct (Ht pid f Hg) as (_ & q & Hq & Hqid).
    rewrite Hp in Hq. injection Hq as <-. done. }
  constructor; cbn [pages_ page_table_ free_list_ replacer_ pool_size_];
    unfold LRUReplacer.tracked.
  - by rewrite length_set_page.
  - done.
  - done.
  - intros g [Hg|Hg]%elem_of_app; apply Hr; apply elem_of_app; auto.
  - intros pid g Hg. destruct (decide (pid = page_id)) as [->|Hne].
    + rewrite lookup_insert_eq in Hg. injection Hg as <-. split; [tauto|].
      eexists. split; [by apply page_at_set_page_eq with p|done].
    + destruct (Hold pid g Hne Hg) as [Hg' Hgf].
      destruct (Ht pid g Hg') as (Hngf & q & Hq & Hqid).
      split; [by intros ?%Hfl|]. exists q. by rewrite page_at_set_page_ne.
  - intros g q [[-> ->]|[Hne Hq]]%page_at_set_page_cases; [done|by apply (Hpin g)].
  - intros g q Hg [[-> ->]|[Hne Hq]]%page_at_set_page_cases; [tauto|].
    apply (Hfree g); [by apply Hfl|done].
  - intros g q Hg [[-> ->]|[Hne Hq]]%page_at_set_page_cases; [tauto|].
    apply (Htr g); [by apply Hsub|done].
  - intros pid g q Hg [[-> ->]|[Hne Hq]]%page_at_set_page_cases Hq0; [done|].
    destruct (decide (pid = page_id)) as [->|Hnp].
    + rewrite lookup_insert_eq in Hg. by injection Hg as <-.
    + destruct (Hold pid g Hnp Hg) as [Hg' Hgf].
      apply Hkeep; [done|]. by apply (Hev pid g q).
Qed.

(** The state after [write_back] and the installation of a page, in terms of
    the state before. *)
Lemma install_after_write_back s f p page_id d :
  page_at (pages_ s) f = Some p →
  with_pages
    (with_page_table (write_back s f)
       (<[page_id := f]>
          (delete (page_id_ (get_page (pages_ (write_back s f)) f))
             (page_table_ (write_back s f)))))
    (set_page (pages_ (write_back s f)) f (mkPage d page_id 1 false))
  = mk (pool_size_ s) (num_instances_ s) (instance_index_ s) (next_page_id_ s)
       (set_page (pages_ s) f (mkPage d page_id 1 false))
       (<[page_id := f]> (delete (page_id_ p) (page_table_ s)))
       (free_list_ s) (replacer_ s) (disk_manager_ (write_back s f)).
Proof.
  intros Hp. unfold write_back. rewrite (get_page_Some _ _ _ Hp).
  destruct (is_dirty_ p).
  - cbn [pages_ page_table_ with_pages with_disk with_page_table].
    rewrite (get_page_Some _ f (mkPage (data_ p) (page_id_ p) (pin_count_ p) false))
      by (by apply page_at_set_page_eq with p).
    by rewrite set_page_set_page.
  - by rewrite (get_page_Some _ _ _ Hp).
Qed.

(** What [pick_frame] returns when the invariant holds. *)
Lemma pick_frame_inv s f s1 :
  instance_inv s → pick_frame s = Some (f, s1) →
  ∃ p, page_at (pages_ s) f = Some p ∧ pin_count_ p = 0 ∧
       pages_ s1 = pages_ s ∧ page_table_ s1 = page_table_ s ∧
       pool_size_ s1 = pool_size_ s ∧ num_instances_ s1 = num_instances_ s ∧
       instance_index_ s1 = instance_index_ s ∧ next_page_id_ s1 = next_page_id_ s ∧
       disk_manager_ s1 = disk_manager_ s ∧
       LRUReplacer.capacity_ (replacer_ s1) = pool_size_ s ∧
       NoDup (f :: free_list_ s1 ++ LRUReplacer.nodes (replacer_ s1)) ∧
       (∀ g, g ∈ free_list_ s1 → g ∈ free_list_ s) ∧
       (∀ g, g ∈ LRUReplacer.nodes (replacer_ s1) → g ∈ LRUReplacer.nodes (replacer_ s)) ∧
       (∀ g, g ≠ f → g ∈ LRUReplacer.nodes (replacer_ s) →
             g ∈ LRUReplacer.nodes (replacer_ s1)).
Proof.
  intros Hinv Hpick. unfold pick_frame in Hpick.
  destruct (free_list_ s) as [|x rest] eqn:Hfl.
  - destruct (replacer_ s) as [c l] eqn:Hrep.
    induction l as [|x l _] using rev_ind; [done|].
    rewrite Victim_snoc in Hpick. injection Hpick as <- <-.
    assert (Hin : x ∈ free_list_ s ++ LRUReplacer.nodes (replacer_ s)).
    { rewrite Hrep. cbn [LRUReplacer.nodes]. rewrite !elem_of_app, list_elem_of_singleton. tauto. }
    pose proof (inv_range s Hinv x Hin) as Hxr.
    destruct (page_at_in_range (pages_ s) x) as [p Hp];
      [by rewrite (inv_length s Hinv)|].
    exists p. split; [done|]. split.
    { apply (inv_tracked s Hinv x p); [|done]. unfold LRUReplacer.tracked.
      rewrite Hrep. cbn [LRUReplacer.nodes]. rewrite elem_of_app, list_elem_of_singleton. tauto. }
    cbn [pages_ page_table_ pool_size_ num_instances_ instance_index_ next_page_id_
         disk_manager_ replacer_ free_list_ with_replacer LRUReplacer.capacity_
         LRUReplacer.nodes].
    pose proof (inv_capacity s Hinv) as Hcap. rewrite Hrep in Hcap.
    pose proof (inv_nodup s Hinv) as Hnd. rewrite Hfl, Hrep in Hnd.
    cbn [app LRUReplacer.nodes LRUReplacer.capacity_] in *.
    rewrite Hfl. cbn [app].
    split_and!; try done.
    + apply NoDup_app in Hnd as (H1 & H2 & H3). apply NoDup_cons. split; [|done].
      intros Hx. apply (H2 x Hx). apply elem_of_cons. by left.
    + intros g Hg. apply elem_of_app. by left.
    + intros g Hne [Hg|Hg%list_elem_of_singleton]%elem_of_app; done.
  - injection Hpick as <- <-.
    assert (Hin : x ∈ free_list_ s ++ LRUReplacer.nodes (replacer_ s)).
    { rewrite Hfl. apply elem_of_app. left. apply elem_of_cons. by left. }
    pose proof (inv_range s Hinv x Hin) as Hxr.
    destruct (page_at_in_range (pages_ s) x) as [p Hp];
      [by rewrite (inv_length s Hinv)|].
    exists p. split; [done|]. split.
    { apply (inv_free s Hinv x p); [|done]. rewrite Hfl. apply elem_of_cons. by left. }
    cbn [pages_ page_table_ pool_size_ num_instances_ instance_index_ next_page_id_
         disk_manager_ replacer_ free_list_ with_free_list].
    pose proof (inv_nodup s Hinv) as Hnd. rewrite Hfl in Hnd.
    split_and!; try done.
    + apply (inv_capacity s Hinv).
    + intros g Hg. apply elem_of_cons. by right.
Qed.

Lemma inv_NewPgImp s : instance_inv s → instance_inv (snd (NewPgImp s)).
Proof.
  intros Hinv. unfold NewPgImp.
  destruct (pick_frame s) as [[f s1]|] eqn:Hpick; [|done].
  destruct (pick_frame_inv s f s1 Hinv Hpick)
    as (p & Hp & Hp0 & Hps & Hpt & Hsz & HN & Hidx & Hnext & Hdisk & Hcap & Hnd
        & Hfl & Hsub & Hkeep).
  unfold AllocatePage. cbn [snd].
  set (s2 := with_next_page_id s1 _).
  assert (Hp2 : page_at (pages_ s2) f = Some p) by (subst s2; cbn [pages_ with_next_page_id]; by rewrite Hps).
  rewrite (install_after_write_back s2 f p _ _ Hp2).
  subst s2. cbn [pool_size_ num_instances_ instance_index_ next_page_id_ pages_
                 page_table_ free_list_ replacer_ with_next_page_id].
  rewrite Hps, Hpt, Hsz, HN, Hidx.
  by apply inv_install.
Qed.

Lemma inv_FetchPgImp s page_id :
  instance_inv s → instance_inv (snd (FetchPgImp s page_id)).
Proof.
  intros Hinv.
  destruct (page_table_ s !! page_id) as [f|] eqn:Hpt.
  - destruct (inv_table s Hinv page_id f Hpt) as (_ & p & Hp & _).
    rewrite (FetchPgImp_hit s page_id f p) by done. cbn [snd].
    by apply (inv_FetchPgImp_hit s page_id f p).
  - unfold FetchPgImp. rewrite Hpt.
    destruct (pick_frame s) as [[f s1]|] eqn:Hpick; [|done].
    destruct (pick_frame_inv s f s1 Hinv Hpick)
      as (p & Hp & Hp0 & Hps & Hpt1 & Hsz & HN & Hidx & Hnext & Hdisk & Hcap & Hnd
          & Hfl & Hsub & Hkeep).
    cbn [snd].
    assert (Hp1 : page_at (pages_ s1) f = Some p) by (by rewrite Hps).
    cbn [disk_manager_ with_page_table].
    rewrite (install_after_write_back s1 f p _ _ Hp1).
    rewrite Hps, Hpt1, Hsz, HN, Hidx.
    by apply inv_install.
Qed.

Lemma inv_fresh pool_size N idx disk :
  instance_inv (BufferPoolManagerInstance pool_size N idx disk).
Proof.
  assert (Hpage : ∀ f p, page_at (replicate pool_size new_Page) f = Some p → p = new_Page).
  { intros f p. unfold page_at. destruct (decide (0 ≤ f)); [|done].
    intros H. apply lookup_replicate in H. tauto. }
  constructor;
    cbn [pages_ page_table_ free_list_ replacer_ pool_size_ BufferPoolManagerInstance
         LRUReplacer.LRUReplacer LRUReplacer.nodes LRUReplacer.capacity_];
    unfold LRUReplacer.tracked; cbn [LRUReplacer.nodes].
  - apply length_replicate.
  - done.
  - rewrite app_nil_r. apply NoDup_fmap_2; [apply _|apply NoDup_seq].
  - rewrite app_nil_r. intros f (i & -> & Hi%elem_of_seq)%list_elem_of_fmap. lia.
  - intros pid f Hf. by rewrite lookup_empty in Hf.
  - intros f p ->%Hpage. done.
  - intros f p _ ->%Hpage. done.
  - intros f p Hf. by apply elem_of_nil in Hf.
  - intros pid f p Hf. by rewrite lookup_empty in Hf.
Qed.

Lemma inv_step s o : instance_inv s → instance_inv (snd (step s o)).
Proof.
  intros Hinv. destruct o as [pid| |pid d|pid|pid|]; cbn [step].
  - change (@FetchPage t frame_id_t bpm s pid) with (FetchPgImp s pid).
    pose proof (inv_FetchPgImp s pid Hinv). by destruct (FetchPgImp s pid).
  - change (@NewPage t frame_id_t bpm s) with (NewPgImp s).
    pose proof (inv_NewPgImp s Hinv). by destruct (NewPgImp s).
  - change (@UnpinPage t frame_id_t bpm s pid d) with (UnpinPgImp s pid d).
    pose proof (inv_UnpinPgImp s pid d Hinv). by destruct (UnpinPgImp s pid d).
  - change (@DeletePage t frame_id_t bpm s pid) with (DeletePgImp s pid).
    pose proof (inv_DeletePgImp s pid Hinv). by destruct (DeletePgImp s pid).
  - change (@FlushPage t frame_id_t bpm s pid) with (FlushPgImp s pid).
    pose proof (inv_FlushPgImp s pid Hinv). by destruct (FlushPgImp s pid).
  - by apply inv_FlushAllPgsImp.
Qed.

Lemma inv_exec ops : ∀ s, instance_inv s → instance_inv (exec s ops).
Proof.
  unfold exec. induction ops as [|o ops IH]; intros s Hinv; [done|].
  cbn [run]. pose proof (inv_step s o Hinv) as Hs.
  destruct (step s o) as [r s']. cbn [snd] in Hs.
  specialize (IH s' Hs). by destruct (run s' ops).
Qed.

Lemma inv_reachable pool_size N idx disk ops :
  instance_inv (exec (BufferPoolManagerInstance pool_size N idx disk) ops).
Proof. apply inv_exec, inv_fresh. Qed.

Lemma write_back_pool_size s f : pool_size_ (write_back s f) = pool_size_ s.
Proof. unfold write_back. by destruct (is_dirty_ _). Qed.

Lemma pick_frame_pool_size s f s1 :
  pick_frame s = Some (f, s1) → pool_size_ s1 = pool_size_ s.
Proof.
  unfold pick_frame. destruct (free_list_ s).
  - destruct (LRUReplacer.Victim (replacer_ s)) as [[g|] r']; [|done].
    by intros [= _ <-].
  - by intros [= _ <-].
Qed.

Lemma step_pool_size s o : pool_size_ (snd (step s o)) = pool_size_ s.
Proof.
  destruct o as [pid| |pid d|pid|pid|]; cbn [step].
  - change (@FetchPage t frame_id_t bpm s pid) with (FetchPgImp s pid).
    assert (H : pool_size_ (snd (FetchPgImp s pid)) = pool_size_ s);
      [|by destruct (FetchPgImp s pid)].
    unfold FetchPgImp. destruct (page_table_ s !! pid); [done|].
    destruct (pick_frame s) as [[f s1]|] eqn:E; [|done].
    cbn [snd pool_size_ with_pages with_page_table].
    rewrite write_back_pool_size. by apply pick_frame_pool_size with f.
  - change (@NewPage t frame_id_t bpm s) with (NewPgImp s).
    assert (H : pool_size_ (snd (NewPgImp s)) = pool_size_ s);
      [|by destruct (NewPgImp s)].
    unfold NewPgImp. destruct (pick_frame s) as [[f s1]|] eqn:E; [|done].
    unfold AllocatePage. cbn [snd pool_size_ with_pages with_page_table].
    rewrite write_back_pool_size. cbn [pool_size_ with_next_page_id].
    by apply pick_frame_pool_size with f.
  - change (@UnpinPage t frame_id_t bpm s pid d) with (UnpinPgImp s pid d).
    assert (H : pool_size_ (snd (UnpinPgImp s pid d)) = pool_size_ s);
      [|by destruct (UnpinPgImp s pid d)].
    unfold UnpinPgImp. destruct (page_table_ s !! pid); [|done].
    cbn [pin_count_]. destruct (_ <=? 0); [done|]. by destruct (_ =? 0).
  - change (@DeletePage t frame_id_t bpm s pid) with (DeletePgImp s pid).
    assert (H : pool_size_ (snd (DeletePgImp s pid)) = pool_size_ s);
      [|by destruct (DeletePgImp s pid)].
    unfold DeletePgImp. cbn [page_table_ pages_ with_disk].
    destruct (page_table_ s !! pid); [|done]. by destruct (0 <? _).
  - change (@FlushPage t frame_id_t bpm s pid) with (FlushPgImp s pid).
    assert (H : pool_size_ (snd (FlushPgImp s pid)) = pool_size_ s);
      [|by destruct (FlushPgImp s pid)].
    unfold FlushPgImp. destruct (page_table_ s !! pid); [|done].
    by destruct (is_dirty_ _).
  - change (pool_size_ (FlushAllPgsImp s) = pool_size_ s). unfold FlushAllPgsImp.
    generalize (seq 0 (pool_size_ s)). intros l. revert s.
    induction l as [|i l IHl]; intros s; [done|]. cbn [foldl]. rewrite IHl.
    apply write_back_pool_size.
Qed.

Lemma exec_pool_size ops : ∀ s, pool_size_ (exec s ops) = pool_size_ s.
Proof.
  unfold exec. induction ops as [|o ops IH]; intros s; [done|].
  cbn [run]. pose proof (step_pool_size s o) as Hs.
  destruct (step s o) as [r s1]. cbn [snd] in Hs.
  specialize (IH s1). destruct (run s1 ops) as [rs s2]. cbn [snd] in *. congruence.
Qed.

End invariant_proofs.

(** ** What holds after every run of public operations *)

Section reachable_theorems.
Import BufferPoolManagerInstance.
Implicit Types (s : t) (f g : frame_id_t) (p q : Page).

(** Pin counts never go negative: after any run of public operations on a new
    instance every frame has a pin count of at least 0. *)
Theorem pin_count_never_negative (pool_size : nat) (N idx : Z) (disk : DiskManager)
    (ops : list op) :
  Forall (λ p, 0 ≤ pin_count_ p)
         (pages_ (exec (BufferPoolManagerInstance pool_size N idx disk) ops)).
Proof.
  pose proof (inv_reachable pool_size N idx disk ops) as Hinv.
  apply Forall_lookup. intros i p Hi.
  apply (inv_pin _ Hinv (Z.of_nat i) p).
  unfold page_at. destruct (decide (0 ≤ Z.of_nat i)); [|lia].
  by rewrite Nat2Z.id.
Qed.

(** [Victim] never names a pinned frame: after any run, a frame returned by
    the replacer of the instance is a frame of the pool whose pin count
    is 0. *)
Theorem victim_is_unpinned (pool_size : nat) (N idx : Z) (disk : DiskManager)
    (ops : list op) (f : frame_id_t) :
  let s := exec (BufferPoolManagerInstance pool_size N idx disk) ops in
  fst (LRUReplacer.Victim (replacer_ s)) = Some f →
  0 ≤ f < Z.of_nat pool_size ∧
  ∃ p, page_at (pages_ s) f = Some p ∧ pin_count_ p = 0.
Proof.
  cbv zeta. intros Hv%Victim_tracked.
  pose proof (inv_reachable pool_size N idx disk ops) as Hinv.
  set (s := exec _ ops) in *.
  assert (Hps : pool_size_ s = pool_size) by apply exec_pool_size.
  rewrite <- Hps.
  assert (Hr : 0 ≤ f < Z.of_nat (pool_size_ s)).
  { apply (inv_range s Hinv). apply elem_of_app. by right. }
  split; [done|].
  destruct (page_at_in_range (pages_ s) f) as [p Hp];
    [by rewrite (inv_length s Hinv)|].
  exists p. split; [done|]. by apply (inv_tracked s Hinv f p).
Qed.

Lemma victim_is_unpinned_witness :
  0 ≤ 0 < Z.of_nat 2 ∧
  ∃ p, page_at (pages_ pool2_page0_dirty) 0 = Some p ∧ pin_count_ p = 0.
Proof.
  apply (victim_is_unpinned 2 1 0 new_DiskManager [OpNewPage; OpUnpin 0 true] 0).
  vm_compute; reflexivity.
Defined.

(** For a resident page the two directions of the eviction rule hold after
    every run: its frame is in the replacer exactly when its pin count
    is 0. *)
Theorem resident_evictable_iff_unpinned (pool_size : nat) (N idx : Z)
    (disk : DiskManager) (ops : list op) (page_id : page_id_t) (f : frame_id_t)
    (p : Page) :
  let s := exec (BufferPoolManagerInstance pool_size N idx disk) ops in
  resident s page_id f p → (evictable s f ↔ pin_count_ p = 0).
Proof.
  cbv zeta. intros [Hpt Hp].
  pose proof (inv_reachable pool_size N idx disk ops) as Hinv.
  split.
  - intros Hev. by apply (inv_tracked _ Hinv f p).
  - intros H0. by apply (inv_evictable _ Hinv page_id f p).
Qed.

Lemma resident_evictable_iff_unpinned_witness :
  evictable pool2_page0_dirty 0 ↔ pin_count_ (get_page (pages_ pool2_page0_dirty) 0) = 0.
Proof.
  apply (resident_evictable_iff_unpinned 2 1 0 new_DiskManager
           [OpNewPage; OpUnpin 0 true] 0 0 (get_page (pages_ pool2_page0_dirty) 0)).
  split; vm_compute; reflexivity.
Defined.

(** The frames are never handed out twice: after every run no frame id occurs
    twice in the free list and the replacer taken together, every such id is
    a frame of the pool, so the free and the evictable frames together are at
    most [pool_size], and no page table entry names a free frame. *)
Theorem frames_partition (pool_size : nat) (N idx : Z) (disk : DiskManager)
    (ops : list op) :
  let s := exec (BufferPoolManagerInstance pool_size N idx disk) ops in
  NoDup (free_list_ s ++ LRUReplacer.nodes (replacer_ s)) ∧
  Forall (λ f, 0 ≤ f < Z.of_nat pool_size)
         (free_list_ s ++ LRUReplacer.nodes (replacer_ s)) ∧
  (length (free_list_ s) + LRUReplacer.Size (replacer_ s) ≤ pool_size)%nat ∧
  map_Forall (λ _ f, f ∉ free_list_ s) (page_table_ s).
Proof.
  cbv zeta.
  pose proof (inv_reachable pool_size N idx disk ops) as Hinv.
  pose proof (exec_pool_size ops (BufferPoolManagerInstance pool_size N idx disk)) as Hps.
  cbn [pool_size_ BufferPoolManagerInstance] in Hps.
  set (s := exec _ ops) in *.
  assert (Hr : ∀ f, f ∈ free_list_ s ++ LRUReplacer.nodes (replacer_ s) →
                    0 ≤ f < Z.of_nat pool_size).
  { intros f Hf. rewrite <- Hps. by apply (inv_range s Hinv). }
  split_and!.
  - apply (inv_nodup s Hinv).
  - by apply Forall_forall.
  - unfold LRUReplacer.Size. rewrite <- length_app.
    apply frames_length_le; [apply (inv_nodup s Hinv)|done].
  - intros pid f Hf. by destruct (inv_table s Hinv pid f Hf) as [? _].
Qed.

(** The page table is consistent with the frames after every run: an entry
    for a page id names a frame of the pool whose [page_id_] is that id, and
    no frame is the value of two entries. *)
Theorem page_table_consistent (pool_size : nat) (N idx : Z) (disk : DiskManager)
    (ops : list op) :
  let s := exec (BufferPoolManagerInstance pool_size N idx disk) ops in
  map_Forall (λ page_id f, 0 ≤ f < Z.of_nat pool_size ∧
                           ∃ p, page_at (pages_ s) f = Some p ∧ page_id_ p = page_id)
             (page_table_ s) ∧
  NoDup (snd <$> map_to_list (page_table_ s)).
Proof.
  cbv zeta.
  pose proof (inv_reachable pool_size N idx disk ops) as Hinv.
  pose proof (exec_pool_size ops (BufferPoolManagerInstance pool_size N idx disk)) as Hps.
  cbn [pool_size_ BufferPoolManagerInstance] in Hps.
  set (s := exec _ ops) in *.
  split.
  - intros pid f Hf. split.
    + rewrite <- Hps. by apply (resident_frame_range s pid f).
    + by destruct (inv_table s Hinv pid f Hf) as [_ ?].
  - apply NoDup_fmap_2_strong; [|apply NoDup_map_to_list].
    intros [pid1 f1] [pid2 f2] H1%elem_of_map_to_list H2%elem_of_map_to_list Heq.
    cbn [snd] in Heq. subst f2.
    destruct (inv_table s Hinv pid1 f1 H1) as (_ & p1 & Hp1 & <-).
    destruct (inv_table s Hinv pid2 f1 H2) as (_ & p2 & Hp2 & <-).
    congruence.
Qed.



End reachable_theorems.

(** ** Fetching and creating pages *)

Section acquire_theorems.
Import BufferPoolManagerInstance.
Implicit Types (s : t) (f g : frame_id_t) (p q : Page).

(** [FetchPgImp] of a page that is not resident, when the free list is empty
    and the replacer tracks no frame, returns [nullptr] and changes nothing:
    no page table entry, no frame, no disk access. *)
Theorem FetchPgImp_exhausted_noop s page_id :
  page_table_ s !! page_id = None → free_list_ s = [] →
  LRUReplacer.Size (replacer_ s) = 0%nat →
  FetchPgImp s page_id = (None, s).
Proof.
  intros Hpt Hfl Hsz. unfold FetchPgImp. rewrite Hpt.
  by rewrite (pick_frame_exhausted s Hfl Hsz).
Qed.

Lemma FetchPgImp_exhausted_noop_witness :
  FetchPgImp pool1_full 5 = (None, pool1_full).
Proof. apply (FetchPgImp_exhausted_noop pool1_full 5); vm_compute; reflexivity. Defined.

(** After any run, [FetchPgImp] of a page that is not resident, on an instance
    with a free frame, takes the front of the free list: the replacer and the
    disk are untouched, the frame holds the bytes the disk has for the page,
    with pin count 1 and a clear dirty flag, and the page table maps the page
    to the frame. *)
Theorem FetchPgImp_miss_free_frame (pool_size : nat) (N idx : Z) (disk : DiskManager)
    (ops : list op) (page_id : page_id_t) (f : frame_id_t) (rest : list frame_id_t) :
  let s := exec (BufferPoolManagerInstance pool_size N idx disk) ops in
  let s' := snd (FetchPgImp s page_id) in
  page_table_ s !! page_id = None → free_list_ s = f :: rest →
  fst (FetchPgImp s page_id) = Some f ∧
  free_list_ s' = rest ∧ replacer_ s' = replacer_ s ∧
  disk_manager_ s' = disk_manager_ s ∧
  page_at (pages_ s') f =
    Some (mkPage (ReadPage (disk_manager_ s) page_id) page_id 1 false) ∧
  page_table_ s' !! page_id = Some f.
Proof.
  cbv zeta. intros Hpt Hfl.
  pose proof (inv_reachable pool_size N idx disk ops) as Hinv.
  set (s := exec _ ops) in *.
  assert (Hpick : pick_frame s = Some (f, with_free_list s rest))
    by (unfold pick_frame; by rewrite Hfl).
  destruct (pick_frame_inv s f _ Hinv Hpick) as (p & Hp & Hp0 & _).
  assert (Hclean : is_dirty_ p = false).
  { apply (inv_free s Hinv f p); [|done]. rewrite Hfl. apply elem_of_cons. by left. }
  unfold FetchPgImp. rewrite Hpt, Hpick. cbn [fst snd].
  set (s1 := with_free_list s rest).
  assert (Hp1 : page_at (pages_ s1) f = Some p) by done.
  assert (Hwb : write_back s1 f = s1).
  { unfold write_back. rewrite (get_page_Some _ _ _ Hp1). by rewrite Hclean. }
  cbn [disk_manager_ with_page_table].
  rewrite (install_after_write_back s1 f p _ _ Hp1).
  cbn [free_list_ replacer_ disk_manager_ pages_ page_table_].
  rewrite Hwb. split_and!; try done.
  - by apply page_at_set_page_eq with p.
  - apply lookup_insert_eq.
Qed.

Lemma FetchPgImp_miss_free_frame_witness :
  fst (FetchPgImp pool2_page0_dirty 7) = Some 1 ∧
  page_table_ (snd (FetchPgImp pool2_page0_dirty 7)) !! 7 = Some 1.
Proof.
  pose proof (FetchPgImp_miss_free_frame 2 1 0 new_DiskManager
                [OpNewPage; OpUnpin 0 true] 7 1 []) as H.
  cbv zeta in H. destruct H as (Hr & _ & _ & _ & _ & Hm).
  - vm_compute; reflexivity.
  - vm_compute; reflexivity.
  - split; [exact Hr|exact Hm].
Defined.



End acquire_theorems.

(** ** Flushing and deleting *)

Section flush_theorems.
Import BufferPoolManagerInstance.
Implicit Types (s : t) (f g : frame_id_t) (p q : Page).

Lemma FlushPgImp_not_resident s page_id :
  page_table_ s !! page_id = None → FlushPgImp s page_id = (false, s).
Proof. intros Hn. unfold FlushPgImp. by rewrite Hn. Qed.

Lemma FlushPgImp_resident s page_id f p :
  resident s page_id f p →
  FlushPgImp s page_id =
    (true,
     if is_dirty_ p
     then with_pages (with_disk s (WritePage (disk_manager_ s) page_id (data_ p)))
            (set_page (pages_ s) f (clean p))
     else s).
Proof.
  intros [Hpt Hp]. unfold FlushPgImp. rewrite Hpt, (get_page_Some _ _ _ Hp).
  by destruct (is_dirty_ p).
Qed.

(** [FlushPgImp] fails on a page that is not resident and changes nothing. On
    a resident page it returns true; a clean page is left alone and causes no
    disk write; for a dirty page the bytes of the frame are written to disk
    under the page id (a later read of the page returns them) and the dirty
    flag is cleared, while pin count, bytes, page table, free list and
    replacer are as before. *)
Theorem FlushPgImp_writes_dirty s page_id :
  (page_table_ s !! page_id = None → FlushPgImp s page_id = (false, s)) ∧
  (∀ f p, resident s page_id f p →
     let s' := snd (FlushPgImp s page_id) in
     fst (FlushPgImp s page_id) = true ∧
     (is_dirty_ p = false → s' = s) ∧
     (is_dirty_ p = true →
        write_log (disk_manager_ s') = (page_id, data_ p) :: write_log (disk_manager_ s) ∧
        ReadPage (disk_manager_ s') page_id = data_ p ∧
        page_at (pages_ s') f = Some (clean p) ∧
        page_table_ s' = page_table_ s ∧ free_list_ s' = free_list_ s ∧
        replacer_ s' = replacer_ s)).
Proof.
  split; [apply FlushPgImp_not_resident|].
  intros f p Hres. cbv zeta. rewrite (FlushPgImp_resident s page_id f p Hres).
  cbn [fst snd]. split; [done|]. split.
  - by intros ->.
  - intros ->. cbn [disk_manager_ pages_ page_table_ free_list_ replacer_
                    with_pages with_disk WritePage write_log].
    split_and!; try done.
    + unfold ReadPage, WritePage. cbn [disk_pages]. by rewrite lookup_insert_eq.
    + destruct Hres as [_ Hp]. by apply page_at_set_page_eq with p.
Qed.

Lemma FlushPgImp_writes_dirty_witness :
  FlushPgImp pool2 3 = (false, pool2) ∧
  write_log (disk_manager_ (snd (FlushPgImp pool2_page0_dirty 0)))
    = [(0, data_ (get_page (pages_ pool2_page0_dirty) 0))].
Proof.
  split.
  - apply (proj1 (FlushPgImp_writes_dirty pool2 3)). vm_compute; reflexivity.
  - pose proof (proj2 (FlushPgImp_writes_dirty pool2_page0_dirty 0) 0
                  (get_page (pages_ pool2_page0_dirty) 0)) as H.
    cbv zeta in H. destruct H as (_ & _ & Hd).
    + split; vm_compute; reflexivity.
    + destruct Hd as (Hw & _); [vm_compute; reflexivity|]. exact Hw.
Defined.

(** Flushing twice is flushing once: a second [FlushPgImp] of the same page
    returns the same result and leaves the state of the first. *)
Theorem FlushPgImp_idempotent s page_id :
  FlushPgImp (snd (FlushPgImp s page_id)) page_id =
    (fst (FlushPgImp s page_id), snd (FlushPgImp s page_id)).
Proof.
  destruct (page_table_ s !! page_id) as [f|] eqn:Hpt.
  - destruct (page_at (pages_ s) f) as [p|] eqn:Hp.
    + rewrite (FlushPgImp_resident s page_id f p) by done. cbn [fst snd].
      destruct (is_dirty_ p) eqn:Hd.
      * rewrite (FlushPgImp_resident _ page_id f (clean p)).
        -- done.
        -- split; [done|]. cbn [pages_ with_pages]. by apply page_at_set_page_eq with p.
      * rewrite (FlushPgImp_resident s page_id f p) by done. by rewrite Hd.
    + assert (Hf : FlushPgImp s page_id = (true, s)).
      { unfold FlushPgImp. rewrite Hpt, (get_page_None _ _ Hp). done. }
      by rewrite Hf.
  - rewrite (FlushPgImp_not_resident s page_id Hpt). cbn [fst snd].
    by rewrite (FlushPgImp_not_resident s page_id Hpt).
Qed.

Lemma clean_clean_id p : is_dirty_ p = false → clean p = p.
Proof. destruct p as [d i c b]. unfold clean. cbn. by intros ->. Qed.

Lemma dirty_writes_snoc (l : list Page) p :
  dirty_writes (l ++ [p])
  = dirty_writes l ++ (if is_dirty_ p then [(page_id_ p, data_ p)] else []).
Proof.
  unfold dirty_writes. rewrite omap_app. f_equal. cbn. by destruct (is_dirty_ p).
Qed.

Lemma flush_prefix s (k : nat) :
  (k ≤ length (pages_ s))%nat →
  let s' := foldl (λ s i, write_back s (Z.of_nat i)) s (seq 0 k) in
  pages_ s' = (clean <$> take k (pages_ s)) ++ drop k (pages_ s) ∧
  write_log (disk_manager_ s')
    = rev (dirty_writes (take k (pages_ s))) ++ write_log (disk_manager_ s) ∧
  dealloc_log (disk_manager_ s') = dealloc_log (disk_manager_ s) ∧
  page_table_ s' = page_table_ s ∧ free_list_ s' = free_list_ s ∧
  replacer_ s' = replacer_ s ∧ counter_of s' = counter_of s ∧
  pool_size_ s' = pool_size_ s.
Proof.
  cbv zeta. induction k as [|k IH]; intros Hk.
  - cbn [seq foldl take drop fmap list_fmap app dirty_writes omap rev]. done.
  - rewrite seq_S, foldl_app. cbn [foldl Nat.add].
    destruct IH as (Hps & Hlog & Hde & Hpt & Hfl & Hrep & Hcnt & Hsz); [lia|].
    set (sk := foldl _ s (seq 0 k)) in *.
    destruct (lookup_lt_is_Some_2 (pages_ s) k) as [p Hp]; [lia|].
    assert (Hpk : page_at (pages_ sk) (Z.of_nat k) = Some p).
    { unfold page_at. destruct (decide (0 ≤ Z.of_nat k)); [|lia].
      rewrite Nat2Z.id, Hps. rewrite lookup_app_r; rewrite length_fmap, length_take.
      - replace (k - k `min` length (pages_ s))%nat with 0%nat by lia.
        by rewrite lookup_drop, Nat.add_0_r.
      - lia. }
    assert (Htake : take (S k) (pages_ s) = take k (pages_ s) ++ [p])
      by (by apply take_S_r).
    assert (Hdrop : drop k (pages_ s) = p :: drop (S k) (pages_ s))
      by (by apply drop_S).
    unfold write_back. rewrite (get_page_Some _ _ _ Hpk).
    rewrite Htake, dirty_writes_snoc, fmap_app. cbn [fmap list_fmap].
    destruct (is_dirty_ p) eqn:Hd;
      cbn [pages_ page_table_ free_list_ replacer_ disk_manager_ pool_size_
           with_pages with_disk WritePage write_log dealloc_log].
    + rewrite rev_unit. cbn [app].
      split; [|split; [by rewrite Hlog|done]].
      unfold set_page. destruct (decide (0 ≤ Z.of_nat k)); [|lia].
      rewrite Nat2Z.id, Hps, Hdrop.
      replace k with (length (clean <$> take k (pages_ s)) + 0)%nat at 1
        by (rewrite length_fmap, length_take; lia).
      rewrite insert_app_r. cbn [insert list_insert]. by rewrite <- app_assoc.
    + rewrite app_nil_r.
      split; [|done].
      rewrite Hps, Hdrop, (clean_clean_id p Hd). by rewrite <- app_assoc.
Qed.

(** [FlushAllPgsImp] writes every dirty frame to disk under the page id of the
    frame, in the order of the frames, and nothing else; afterwards no frame
    is dirty, and bytes, page ids, pin counts, page table, free list and
    replacer are as before. *)
Theorem FlushAllPgsImp_writes_all_dirty s :
  length (pages_ s) = pool_size_ s →
  let s' := FlushAllPgsImp s in
  pages_ s' = clean <$> pages_ s ∧
  Forall (λ p, is_dirty_ p = false) (pages_ s') ∧
  write_log (disk_manager_ s')
    = rev (dirty_writes (pages_ s)) ++ write_log (disk_manager_ s) ∧
  page_table_ s' = page_table_ s ∧ free_list_ s' = free_list_ s ∧
  replacer_ s' = replacer_ s ∧ next_page_id_ s' = next_page_id_ s.
Proof.
  intros Hlen. cbv zeta. unfold FlushAllPgsImp. rewrite <- Hlen.
  destruct (flush_prefix s (length (pages_ s)))
    as (Hps & Hlog & _ & Hpt & Hfl & Hrep & Hcnt & _); [lia|].
  rewrite firstn_all, drop_all, app_nil_r in Hps. rewrite firstn_all in Hlog.
  unfold counter_of in Hcnt. injection Hcnt as _ _ Hn.
  split; [exact Hps|]. split.
  { rewrite Hps. apply Forall_forall.
    intros p (q & -> & _)%list_elem_of_fmap. reflexivity. }
  split; [exact Hlog|]. split; [exact Hpt|]. split; [exact Hfl|].
  split; [exact Hrep|exact Hn].
Qed.

Lemma FlushAllPgsImp_writes_all_dirty_witness :
  write_log (disk_manager_ (FlushAllPgsImp pool2_page0_dirty))
    = rev (dirty_writes (pages_ pool2_page0_dirty)) ++ [].
Proof.
  pose proof (FlushAllPgsImp_writes_all_dirty pool2_page0_dirty) as H.
  cbv zeta in H. destruct H as (_ & _ & Hw & _).
  - vm_compute; reflexivity.
  - exact Hw.
Defined.

(** [DeletePgImp] always tells the disk manager that the page id is
    deallocated and never writes a page. When the page is not resident it
    returns true, and when the page is pinned it returns false; in both cases
    nothing else changes. *)
Theorem DeletePgImp_refusals s page_id :
  dealloc_log (disk_manager_ (snd (DeletePgImp s page_id)))
    = page_id :: dealloc_log (disk_manager_ s) ∧
  write_log (disk_manager_ (snd (DeletePgImp s page_id))) = write_log (disk_manager_ s) ∧
  (page_table_ s !! page_id = None →
     DeletePgImp s page_id
     = (true, with_disk s (DeallocatePage (disk_manager_ s) page_id))) ∧
  (∀ f p, resident s page_id f p → 0 < pin_count_ p →
     DeletePgImp s page_id
     = (false, with_disk s (DeallocatePage (disk_manager_ s) page_id))).
Proof.
  split_and!.
  - unfold DeletePgImp. cbn [page_table_ pages_ with_disk].
    destruct (page_table_ s !! page_id); [|done]. by destruct (0 <? _).
  - unfold DeletePgImp. cbn [page_table_ pages_ with_disk].
    destruct (page_table_ s !! page_id); [|done]. by destruct (0 <? _).
  - apply DeletePgImp_not_resident.
  - apply DeletePgImp_pinned.
Qed.

Lemma DeletePgImp_refusals_witness :
  DeletePgImp pool1_full 0
  = (false, with_disk pool1_full (DeallocatePage (disk_manager_ pool1_full) 0)) ∧
  DeletePgImp pool1_full 9
  = (true, with_disk pool1_full (DeallocatePage (disk_manager_ pool1_full) 9)).
Proof.
  destruct (DeletePgImp_refusals pool1_full 0) as (_ & _ & _ & Hp).
  destruct (DeletePgImp_refusals pool1_full 9) as (_ & _ & Hn & _).
  split.
  - apply (Hp 0 (get_page (pages_ pool1_full) 0)).
    + split; vm_compute; reflexivity.
    + vm_compute; reflexivity.
  - apply Hn. vm_compute; reflexivity.
Defined.

End flush_theorems.

(** ** The sequence of page ids *)

Section id_sequence.
Import BufferPoolManagerInstance.
Implicit Types (s : t).

Lemma step_counter_cases s o :
  match step s o with
  | (RetNewPage (Some (page_id, _)), s') =>
      o = OpNewPage ∧ page_id = next_page_id_ s ∧
      counter_of s' = (num_instances_ s, instance_index_ s,
                       wrap32 (next_page_id_ s + num_instances_ s))
  | (_, s') => counter_of s' = counter_of s
  end.
Proof.
  destruct o as [pid| |pid d|pid|pid|]; cbn [step].
  - change (@FetchPage t frame_id_t bpm s pid) with (FetchPgImp s pid).
    pose proof (FetchPgImp_counter s pid). by destruct (FetchPgImp s pid).
  - change (@NewPage t frame_id_t bpm s) with (NewPgImp s).
    pose proof (NewPgImp_counter s) as H.
    destruct (NewPgImp s) as [[[page_id h]|] s']; cbn [fst snd] in H.
    + by destruct H.
    + by subst.
  - change (@UnpinPage t frame_id_t bpm s pid d) with (UnpinPgImp s pid d).
    pose proof (UnpinPgImp_counter s pid d). by destruct (UnpinPgImp s pid d).
  - change (@DeletePage t frame_id_t bpm s pid) with (DeletePgImp s pid).
    pose proof (DeletePgImp_counter s pid). by destruct (DeletePgImp s pid).
  - change (@FlushPage t frame_id_t bpm s pid) with (FlushPgImp s pid).
    pose proof (FlushPgImp_counter s pid). by destruct (FlushPgImp s pid).
  - change (@FlushAllPages t frame_id_t bpm s) with (FlushAllPgsImp s).
    apply FlushAllPgsImp_counter.
Qed.

Lemma new_page_ids_cons_Some {H : Type} (page_id : page_id_t) (h : H) (rs : list (ret H)) :
  new_page_ids (RetNewPage (Some (page_id, h)) :: rs) = page_id :: new_page_ids rs.
Proof. reflexivity. Qed.

Lemma run_ids_sequence N idx ops : ∀ s a,
  0 ≤ a → counter_of s = (N, idx, wrap32 (idx + a * N)) →
  0 < N → 0 ≤ idx →
  idx + (a + Z.of_nat (count_new_page ops) - 1) * N ≤ INT32_MAX →
  (length (new_page_ids (fst (run s ops))) ≤ count_new_page ops)%nat ∧
  new_page_ids (fst (run s ops))
  = (λ k, idx + (a + Z.of_nat k) * N)
      <$> seq 0 (length (new_page_ids (fst (run s ops)))).
Proof.
  induction ops as [|o ops IH]; intros s a Ha Hc HN Hidx Hb; [done|].
  pose proof (step_counter_cases s o) as Hstep.
  cbn [run]. destruct (step s o) as [r s'].
  assert (Hret : (∃ page_id h, r = RetNewPage (Some (page_id, h)))
                 ∨ new_page_ids (r :: fst (run s' ops)) = new_page_ids (fst (run s' ops))).
  { destruct r as [?|[[page_id h]|]|?|]; eauto. }
  pose proof (Nat2Z.is_nonneg (count_new_page ops)) as Hcnt.
  destruct Hret as [(page_id & h & ->)|Hsame].
  - destruct Hstep as (-> & -> & Hc').
    unfold counter_of in Hc. injection Hc as HcN Hci Hcn.
    cbn [count_new_page] in *. rewrite Nat2Z.inj_succ in Hb.
    assert (Hid : next_page_id_ s = idx + a * N).
    { rewrite Hcn. apply wrap32_small. unfold INT32_MAX in *. nia. }
    assert (Hc2 : counter_of s' = (N, idx, wrap32 (idx + (a + 1) * N))).
    { rewrite Hc', HcN, Hci, Hcn, wrap32_add. do 2 f_equal. lia. }
    destruct (IH s' (a + 1)) as [Hlen Hids]; [lia|done|done|done| |].
    { replace (a + 1 + Z.of_nat (count_new_page ops) - 1)
        with (a + Z.succ (Z.of_nat (count_new_page ops)) - 1) by lia. exact Hb. }
    destruct (run s' ops) as [rs s'']. cbn [fst] in *.
    rewrite new_page_ids_cons_Some. cbn [length].
    split; [lia|].
    cbn [seq fmap list_fmap]. rewrite <- fmap_S_seq, <- list_fmap_compose.
    rewrite Hid. f_equal; [f_equal; lia|].
    rewrite Hids at 1. apply list_fmap_ext. intros i k _. cbn. lia.
  - assert (Hc' : counter_of s' = counter_of s).
    { destruct r as [?|[[page_id h]|]|?|]; try exact Hstep.
      exfalso. rewrite new_page_ids_cons_Some in Hsame.
      apply (f_equal length) in Hsame. cbn [length] in Hsame. lia. }
    assert (Hle : (count_new_page ops ≤ count_new_page (o :: ops))%nat)
      by (destruct o; cbn [count_new_page]; lia).
    destruct (IH s' a) as [Hlen Hids]; [lia|by rewrite Hc'|done|done|nia|].
    destruct (run s' ops) as [rs s'']. cbn [fst] in *. rewrite Hsame.
    split; [lia|done].
Qed.

(** Page ids are handed out in sequence: the ids produced by new_page in a
    run on a new instance with shard count [N] and index [idx] are
    [idx, idx + N, idx + 2 N, ...], in this order and without a gap, as long
    as they stay below the largest 32-bit page id. In particular they are
    pairwise distinct and increasing, and a failed new_page skips no id. *)
Theorem new_page_ids_in_sequence (pool_size : nat) (N idx : Z) (disk : DiskManager)
    (ops : list op) :
  0 < N → 0 ≤ idx →
  idx + (Z.of_nat (count_new_page ops) - 1) * N ≤ INT32_MAX →
  let ids := new_page_ids (fst (run (BufferPoolManagerInstance pool_size N idx disk) ops)) in
  ids = (λ k, idx + Z.of_nat k * N) <$> seq 0 (length ids).
Proof.
  intros HN Hidx Hb. cbv zeta.
  destruct (run_ids_sequence N idx ops (BufferPoolManagerInstance pool_size N idx disk) 0)
    as [_ Hids]; [lia| |done|done|exact Hb|].
  - unfold counter_of, BufferPoolManagerInstance.
    cbn [num_instances_ instance_index_ next_page_id_]. do 2 f_equal. lia.
  - rewrite Hids at 1. apply list_fmap_ext. intros i k _. cbn. lia.
Qed.

Lemma new_page_ids_in_sequence_witness :
  new_page_ids (fst (run (BufferPoolManagerInstance 2 3 1 new_DiskManager)
                       [OpNewPage; OpNewPage; OpNewPage; OpUnpin 1 false; OpNewPage]))
  = (λ k, 1 + Z.of_nat k * 3)
      <$> seq 0 (length (new_page_ids
                           (fst (run (BufferPoolManagerInstance 2 3 1 new_DiskManager)
                                   [OpNewPage; OpNewPage; OpNewPage; OpUnpin 1 false;
                                    OpNewPage])))).
Proof.
  apply (new_page_ids_in_sequence 2 3 1 new_DiskManager
           [OpNewPage; OpNewPage; OpNewPage; OpUnpin 1 false; OpNewPage]).
  - lia.
  - lia.
  - vm_compute. discriminate.
Defined.

End id_sequence.

(** ** The parallel manager: the search for an instance *)

Section parallel_search.
Context {I H : Type} `{!BufferPoolManager I H}.

Lemma first_loop_spec fuel : ∀ index (m : ParallelBufferPoolManager.t I),
  (length (ParallelBufferPoolManager.instances_ m) ≤ index + fuel)%nat →
  match fst (ParallelBufferPoolManager.NewPg_loop fuel index m) with
  | None =>
      (∀ i, (index ≤ i < length (ParallelBufferPoolManager.instances_ m))%nat →
            gives_no_page (ParallelBufferPoolManager.instances_ m) i) ∧
      ParallelBufferPoolManager.startIdx
        (snd (ParallelBufferPoolManager.NewPg_loop fuel index m))
      = ParallelBufferPoolManager.startIdx m
  | Some (page_id, (i, h)) =>
      (index ≤ i < length (ParallelBufferPoolManager.instances_ m))%nat ∧
      gives_page (ParallelBufferPoolManager.instances_ m) i page_id h ∧
      (∀ i', (index ≤ i' < i)%nat →
             gives_no_page (ParallelBufferPoolManager.instances_ m) i') ∧
      ParallelBufferPoolManager.startIdx
        (snd (ParallelBufferPoolManager.NewPg_loop fuel index m))
      = ((ParallelBufferPoolManager.startIdx m + 1)
           mod length (ParallelBufferPoolManager.instances_ m))%nat
  end.
Proof.
  induction fuel as [|fuel IH]; intros index m Hlen.
  - cbn [ParallelBufferPoolManager.NewPg_loop fst snd]. split; [|done].
    intros i Hi. lia.
  - cbn [ParallelBufferPoolManager.NewPg_loop].
    destruct (ParallelBufferPoolManager.instances_ m !! index) as [bfi|] eqn:Hbfi.
    + destruct (NewPage bfi) as [[[page_id h]|] bfi'] eqn:Hnew.
      * cbn [fst snd ParallelBufferPoolManager.startIdx
             ParallelBufferPoolManager.instances_
             ParallelBufferPoolManager.with_instance].
        rewrite length_insert.
        pose proof (lookup_lt_Some _ _ _ Hbfi) as Hlt.
        split_and!; [lia|lia| | |done].
        -- exists bfi. by rewrite Hnew.
        -- intros i' Hi'. lia.
      * specialize (IH (S index) (ParallelBufferPoolManager.with_instance m index bfi')).
        cbn [ParallelBufferPoolManager.with_instance
             ParallelBufferPoolManager.instances_
             ParallelBufferPoolManager.startIdx] in IH.
        rewrite length_insert in IH. specialize (IH ltac:(lia)).
        assert (Hother : ∀ i, (S index ≤ i)%nat →
                  gives_no_page (<[index:=bfi']> (ParallelBufferPoolManager.instances_ m)) i →
                  gives_no_page (ParallelBufferPoolManager.instances_ m) i).
        { intros i Hi (b & Hb & Hn). exists b. split; [|done].
          rewrite list_lookup_insert_ne in Hb by lia. done. }
        assert (Hhere : gives_no_page (ParallelBufferPoolManager.instances_ m) index).
        { exists bfi. by rewrite Hnew. }
        destruct (fst (ParallelBufferPoolManager.NewPg_loop fuel (S index) _))
          as [[page_id [i h]]|].
        -- destruct IH as (Hi & (b & Hb & Hg) & Hbefore & Hs).
           split_and!; [lia|lia| | |done].
           ++ exists b. split; [|done]. rewrite list_lookup_insert_ne in Hb by lia. done.
           ++ intros i' Hi'. destruct (decide (i' = index)) as [->|Hne]; [done|].
              apply Hother; [lia|]. apply Hbefore. lia.
        -- destruct IH as [Hall Hs]. split; [|done].
           intros i Hi. destruct (decide (i = index)) as [->|Hne]; [done|].
           apply Hother; [lia|]. apply Hall. lia.
    + cbn [fst snd]. split; [|done]. intros i Hi.
      apply lookup_ge_None in Hbfi. lia.
Qed.

(** The first revision of [NewPgImp] asks the instances from [startIdx] to the
    last one, in this order and without wrapping around. It fails exactly
    when none of these can give a page, and then leaves [startIdx] as it is;
    otherwise it returns the page of the first of them that gives one, and
    advances [startIdx] by one modulo the number of instances. *)
Theorem NewPgImp_first_revision_search (m : ParallelBufferPoolManager.t I) :
  let n := length (ParallelBufferPoolManager.instances_ m) in
  let start := ParallelBufferPoolManager.startIdx m in
  match fst (ParallelBufferPoolManager.NewPgImp m) with
  | None =>
      (∀ i, (start ≤ i < n)%nat →
            gives_no_page (ParallelBufferPoolManager.instances_ m) i) ∧
      ParallelBufferPoolManager.startIdx (snd (ParallelBufferPoolManager.NewPgImp m))
      = start
  | Some (page_id, (i, h)) =>
      (start ≤ i < n)%nat ∧
      gives_page (ParallelBufferPoolManager.instances_ m) i page_id h ∧
      (∀ i', (start ≤ i' < i)%nat →
             gives_no_page (ParallelBufferPoolManager.instances_ m) i') ∧
      ParallelBufferPoolManager.startIdx (snd (ParallelBufferPoolManager.NewPgImp m))
      = ((start + 1) mod n)%nat
  end.
Proof.
  cbv zeta. unfold ParallelBufferPoolManager.NewPgImp.
  apply first_loop_spec. lia.
Qed.

Lemma mod_add_ne (c k N : nat) :
  (c < N)%nat → (0 < k < N)%nat → ((c + k) mod N)%nat ≠ c.
Proof.
  intros Hc Hk. destruct (le_lt_dec N (c + k)) as [Hge|Hlt].
  - replace (c + k)%nat with ((c + k - N) + 1 * N)%nat by lia.
    rewrite Nat.Div0.mod_add, Nat.mod_small; lia.
  - rewrite Nat.mod_small; lia.
Qed.

Lemma mod_add_succ (c j N : nat) :
  (((c + 1) mod N + j) mod N = (c + S j) mod N)%nat.
Proof. rewrite Nat.Div0.add_mod_idemp_l. f_equal. lia. Qed.

Lemma variant_loop_spec n : ∀ (m : ParallelVariant.t I),
  variant_wf m → (n ≤ ParallelVariant.num_instance_ m)%nat →
  match fst (ParallelVariant.NewPg_loop n m) with
  | None =>
      (∀ j, (j < n)%nat →
            gives_no_page (ParallelVariant.instances_ m)
              ((ParallelVariant.next_index_ m + j) mod ParallelVariant.num_instance_ m)) ∧
      ParallelVariant.next_index_ (snd (ParallelVariant.NewPg_loop n m))
      = ((ParallelVariant.next_index_ m + n) mod ParallelVariant.num_instance_ m)%nat
  | Some (page_id, (i, h)) =>
      ∃ j, (j < n)%nat ∧
        i = ((ParallelVariant.next_index_ m + j) mod ParallelVariant.num_instance_ m)%nat ∧
        gives_page (ParallelVariant.instances_ m) i page_id h ∧
        (∀ j', (j' < j)%nat →
               gives_no_page (ParallelVariant.instances_ m)
                 ((ParallelVariant.next_index_ m + j') mod ParallelVariant.num_instance_ m)) ∧
        ParallelVariant.next_index_ (snd (ParallelVariant.NewPg_loop n m))
        = ((ParallelVariant.next_index_ m + j + 1) mod ParallelVariant.num_instance_ m)%nat
  end.
Proof.
  induction n as [|n IH]; intros m [HN Hc] Hn.
  - cbn [ParallelVariant.NewPg_loop fst snd]. split; [intros j Hj; lia|].
    rewrite Nat.add_0_r, Nat.mod_small; done.
  - cbn [ParallelVariant.NewPg_loop].
    destruct (lookup_lt_is_Some_2 (ParallelVariant.instances_ m)
                (ParallelVariant.next_index_ m)) as [bfi Hbfi]; [lia|].
    rewrite Hbfi.
    set (c := ParallelVariant.next_index_ m) in *.
    set (N := ParallelVariant.num_instance_ m) in *.
    destruct (NewPage bfi) as [[[page_id h]|] bfi'] eqn:Hnew.
    + cbn [fst snd ParallelVariant.next_index_ ParallelVariant.with_next_index
           ParallelVariant.with_instance ParallelVariant.num_instance_].
      exists 0%nat. rewrite !Nat.add_0_r, (Nat.mod_small c N) by done.
      split_and!; [lia|done| | |done].
      * exists bfi. by rewrite Hnew.
      * intros j' Hj'. lia.
    + set (m' := ParallelVariant.with_next_index
                   (ParallelVariant.with_instance m c bfi') _).
      assert (Hwf' : variant_wf m').
      { split; subst m';
          cbn [ParallelVariant.num_instance_ ParallelVariant.instances_
               ParallelVariant.next_index_ ParallelVariant.with_next_index
               ParallelVariant.with_instance].
        - by rewrite length_insert.
        - apply Nat.mod_upper_bound. fold N. lia. }
      specialize (IH m' Hwf').
      assert (HN' : ParallelVariant.num_instance_ m' = N) by done.
      assert (Hc' : ParallelVariant.next_index_ m' = ((c + 1) mod N)%nat) by done.
      assert (Hi' : ParallelVariant.instances_ m'
                    = <[c := bfi']> (ParallelVariant.instances_ m)) by done.
      rewrite HN', Hc', Hi' in IH. specialize (IH ltac:(lia)).
      assert (Hhere : gives_no_page (ParallelVariant.instances_ m) ((c + 0) mod N)).
      { rewrite Nat.add_0_r, Nat.mod_small by done. exists bfi. by rewrite Hnew. }
      assert (Hother : ∀ j, (S j < N)%nat →
                gives_no_page (<[c := bfi']> (ParallelVariant.instances_ m))
                  (((c + 1) mod N + j) mod N) →
                gives_no_page (ParallelVariant.instances_ m) ((c + S j) mod N)).
      { intros j Hj (b & Hb & Hf). rewrite mod_add_succ in Hb.
        exists b. split; [|done].
        rewrite list_lookup_insert_ne in Hb; [done|].
        intros Heq. symmetry in Heq. revert Heq. apply mod_add_ne; lia. }
      destruct (fst (ParallelVariant.NewPg_loop n m')) as [[page_id [i h]]|].
      * destruct IH as (j & Hj & -> & (b & Hb & Hg) & Hbefore & Hs).
        exists (S j). rewrite mod_add_succ in *.
        split_and!; [lia|done| | |].
        -- exists b. split; [|done].
           rewrite list_lookup_insert_ne in Hb; [done|].
           intros Heq. symmetry in Heq. revert Heq. apply mod_add_ne; lia.
        -- intros j' Hj'. destruct j' as [|j']; [done|].
           apply Hother; [lia|]. apply Hbefore. lia.
        -- rewrite Hs.
           replace ((c + 1) mod N + j + 1)%nat with ((c + 1) mod N + (j + 1))%nat by lia.
           rewrite Nat.Div0.add_mod_idemp_l. f_equal. lia.
      * destruct IH as [Hall Hs]. split.
        -- intros j Hj. destruct j as [|j]; [done|].
           apply Hother; [lia|]. apply Hall. lia.
        -- rewrite Hs. rewrite Nat.Div0.add_mod_idemp_l. f_equal. lia.
Qed.

(** The second revision of [NewPgImp] asks every instance once, starting at
    the cursor and wrapping around. It fails exactly when no instance can
    give a page, and then the cursor is back where it was; otherwise it
    returns the page of the first instance after the cursor (in cyclic order)
    that gives one, and the cursor points to the instance after it. *)
Theorem NewPgImp_second_revision_search (m : ParallelVariant.t I) :
  variant_wf m →
  let n := ParallelVariant.num_instance_ m in
  let c := ParallelVariant.next_index_ m in
  match fst (ParallelVariant.NewPgImp m) with
  | None =>
      (∀ i, (i < n)%nat → gives_no_page (ParallelVariant.instances_ m) i) ∧
      ParallelVariant.next_index_ (snd (ParallelVariant.NewPgImp m)) = c
  | Some (page_id, (i, h)) =>
      ∃ j, (j < n)%nat ∧ i = ((c + j) mod n)%nat ∧
        gives_page (ParallelVariant.instances_ m) i page_id h ∧
        (∀ j', (j' < j)%nat →
               gives_no_page (ParallelVariant.instances_ m) ((c + j') mod n)) ∧
        ParallelVariant.next_index_ (snd (ParallelVariant.NewPgImp m))
        = ((c + j + 1) mod n)%nat
  end.
Proof.
  intros Hwf. cbv zeta. unfold ParallelVariant.NewPgImp.
  pose proof (variant_loop_spec (ParallelVariant.num_instance_ m) m Hwf ltac:(lia)) as Hl.
  destruct Hwf as [HN Hc].
  destruct (fst (ParallelVariant.NewPg_loop _ m)) as [[page_id [i h]]|]; [done|].
  destruct Hl as [Hall Hs]. split.
  - intros i Hi.
    set (c := ParallelVariant.next_index_ m) in *.
    set (n := ParallelVariant.num_instance_ m) in *.
    destruct (le_lt_dec c i) as [Hge|Hlt].
    + specialize (Hall (i - c)%nat ltac:(lia)).
      replace (c + (i - c))%nat with i in Hall by lia.
      by rewrite Nat.mod_small in Hall.
    + specialize (Hall (i + n - c)%nat ltac:(lia)).
      replace (c + (i + n - c))%nat with (i + 1 * n)%nat in Hall by lia.
      by rewrite Nat.Div0.mod_add, Nat.mod_small in Hall.
  - rewrite Hs.
    replace (ParallelVariant.next_index_ m + ParallelVariant.num_instance_ m)%nat
      with (ParallelVariant.next_index_ m + 1 * ParallelVariant.num_instance_ m)%nat by lia.
    by rewrite Nat.Div0.mod_add, Nat.mod_small.
Qed.

End parallel_search.

Section parallel_search_witness.

Lemma NewPgImp_second_revision_search_witness :
  match fst (ParallelVariant.NewPgImp shard1_full_variant) with
  | None =>
      (∀ i, (i < 2)%nat →
            gives_no_page (ParallelVariant.instances_ shard1_full_variant) i) ∧
      ParallelVariant.next_index_ (snd (ParallelVariant.NewPgImp shard1_full_variant))
      = 1%nat
  | Some (page_id, (i, h)) =>
      ∃ j, (j < 2)%nat ∧ i = ((1 + j) mod 2)%nat ∧
        gives_page (ParallelVariant.instances_ shard1_full_variant) i page_id h ∧
        (∀ j', (j' < j)%nat →
               gives_no_page (ParallelVariant.instances_ shard1_full_variant)
                 ((1 + j') mod 2)) ∧
        ParallelVariant.next_index_ (snd (ParallelVariant.NewPgImp shard1_full_variant))
        = ((1 + j + 1) mod 2)%nat
  end.
Proof.
  apply (NewPgImp_second_revision_search shard1_full_variant).
  split; vm_compute; [reflexivity|lia].
Defined.

End parallel_search_witness.

(** ** The parallel manager: routing *)

Section parallel_routing.
Context {I H : Type} `{!BufferPoolManager I H}.
Implicit Types (m : ParallelBufferPoolManager.t I).

Lemma GetBufferPoolManager_lt m page_id :
  (0 < length (ParallelBufferPoolManager.instances_ m))%nat →
  (ParallelBufferPoolManager.GetBufferPoolManager m page_id
   < length (ParallelBufferPoolManager.instances_ m))%nat.
Proof.
  intros Hn. unfold ParallelBufferPoolManager.GetBufferPoolManager.
  pose proof (Z.mod_pos_bound (to_size_t page_id)
                (Z.of_nat (length (ParallelBufferPoolManager.instances_ m)))
                ltac:(lia)).
  lia.
Qed.

Lemma routed_spec {R : Type} (call : I → R * I) (failure : R) m page_id :
  (0 < length (ParallelBufferPoolManager.instances_ m))%nat →
  ∃ bfi,
    ParallelBufferPoolManager.instances_ m
      !! ParallelBufferPoolManager.GetBufferPoolManager m page_id = Some bfi ∧
    ParallelBufferPoolManager.routed call failure m page_id
    = (fst (call bfi),
       ParallelBufferPoolManager.mk
         (<[ParallelBufferPoolManager.GetBufferPoolManager m page_id := snd (call bfi)]>
            (ParallelBufferPoolManager.instances_ m))
         (ParallelBufferPoolManager.startIdx m)).
Proof.
  intros Hn. pose proof (GetBufferPoolManager_lt m page_id Hn) as Hlt.
  destruct (lookup_lt_is_Some_2 _ _ Hlt) as [bfi Hbfi]. exists bfi. split; [done|].
  unfold ParallelBufferPoolManager.routed. rewrite Hbfi. by destruct (call bfi).
Qed.

(** Routing. With at least one instance, a call for a page id goes to the
    instance [page_id mod n] (for an id in the non-negative [int] range), the
    result is the result of that instance, and no other instance and not the
    cursor is touched. Shown for unpin, flush, delete and fetch. *)
Theorem routed_calls_touch_one_instance m page_id is_dirty :
  (0 < length (ParallelBufferPoolManager.instances_ m))%nat →
  let n := length (ParallelBufferPoolManager.instances_ m) in
  let idx := ParallelBufferPoolManager.GetBufferPoolManager m page_id in
  (idx < n)%nat ∧
  (0 ≤ page_id ≤ INT32_MAX → Z.of_nat idx = page_id mod Z.of_nat n) ∧
  ∃ bfi, ParallelBufferPoolManager.instances_ m !! idx = Some bfi ∧
    UnpinPage m page_id is_dirty
    = (fst (UnpinPage bfi page_id is_dirty),
       ParallelBufferPoolManager.mk
         (<[idx := snd (UnpinPage bfi page_id is_dirty)]>
            (ParallelBufferPoolManager.instances_ m))
         (ParallelBufferPoolManager.startIdx m)) ∧
    FlushPage m page_id
    = (fst (FlushPage bfi page_id),
       ParallelBufferPoolManager.mk
         (<[idx := snd (FlushPage bfi page_id)]> (ParallelBufferPoolManager.instances_ m))
         (ParallelBufferPoolManager.startIdx m)) ∧
    DeletePage m page_id
    = (fst (DeletePage bfi page_id),
       ParallelBufferPoolManager.mk
         (<[idx := snd (DeletePage bfi page_id)]> (ParallelBufferPoolManager.instances_ m))
         (ParallelBufferPoolManager.startIdx m)) ∧
    FetchPage m page_id
    = (pair idx <$> fst (FetchPage bfi page_id),
       ParallelBufferPoolManager.mk
         (<[idx := snd (FetchPage bfi page_id)]> (ParallelBufferPoolManager.instances_ m))
         (ParallelBufferPoolManager.startIdx m)).
Proof.
  intros Hn. cbv zeta. split; [by apply GetBufferPoolManager_lt|]. split.
  - intros Hp. unfold ParallelBufferPoolManager.GetBufferPoolManager, to_size_t.
    rewrite (Z.mod_small page_id (2 ^ 64)) by (unfold INT32_MAX in Hp; lia).
    pose proof (Z.mod_pos_bound page_id
                  (Z.of_nat (length (ParallelBufferPoolManager.instances_ m)))
                  ltac:(lia)).
    lia.
  - destruct (routed_spec (λ bfi, UnpinPage bfi page_id is_dirty) false m page_id Hn)
      as (bfi & Hbfi & Hu).
    exists bfi. split; [done|]. split; [exact Hu|].
    destruct (routed_spec (λ bfi, FlushPage bfi page_id) false m page_id Hn)
      as (b2 & Hb2 & Hf).
    destruct (routed_spec (λ bfi, DeletePage bfi page_id) false m page_id Hn)
      as (b3 & Hb3 & Hd).
    destruct (routed_spec
                (λ bfi, let '(r, bfi) := FetchPage bfi page_id in
                        (pair (ParallelBufferPoolManager.GetBufferPoolManager m page_id)
                           <$> r, bfi))
                None m page_id Hn) as (b4 & Hb4 & He).
    assert (b2 = bfi) as -> by congruence.
    assert (b3 = bfi) as -> by congruence.
    assert (b4 = bfi) as -> by congruence.
    split; [exact Hf|]. split; [exact Hd|].
    change (FetchPage m page_id) with (ParallelBufferPoolManager.FetchPgImp m page_id).
    unfold ParallelBufferPoolManager.FetchPgImp. rewrite He.
    by destruct (FetchPage bfi page_id).
Qed.

End parallel_routing.

Section parallel_routing_instances.
Import BufferPoolManagerInstance.

Lemma routed_calls_touch_one_instance_witness :
  Nat.lt (ParallelBufferPoolManager.GetBufferPoolManager shard1_full 1) 2 ∧
  fst (UnpinPage shard1_full 1 false) = true.
Proof.
  pose proof (routed_calls_touch_one_instance shard1_full 1 false) as H.
  cbv zeta in H. destruct H as (Hlt & _ & bfi & Hbfi & Hu & _).
  - vm_compute. lia.
  - split; [exact Hlt|]. rewrite Hu.
    assert (Hb : bfi = default pool2 (ParallelBufferPoolManager.instances_ shard1_full
                   !! ParallelBufferPoolManager.GetBufferPoolManager shard1_full 1))
      by (by rewrite Hbfi).
    rewrite Hb. vm_compute. reflexivity.
Defined.

Lemma first_loop_length fuel : ∀ index (m : ParallelBufferPoolManager.t t),
  length (ParallelBufferPoolManager.instances_
            (snd (ParallelBufferPoolManager.NewPg_loop fuel index m)))
  = length (ParallelBufferPoolManager.instances_ m).
Proof.
  induction fuel as [|fuel IH]; intros index m; [done|].
  cbn [ParallelBufferPoolManager.NewPg_loop].
  destruct (ParallelBufferPoolManager.instances_ m !! index) as [bfi|]; [|done].
  destruct (NewPage bfi) as [[[page_id h]|] bfi'].
  - cbn [snd ParallelBufferPoolManager.instances_ ParallelBufferPoolManager.with_instance].
    by rewrite length_insert.
  - rewrite IH.
    cbn [ParallelBufferPoolManager.instances_ ParallelBufferPoolManager.with_instance].
    by rewrite length_insert.
Qed.

(** A page created through the parallel manager is routed back to the
    instance that created it: when every instance has the shard count of the
    manager, its own index, and a counter in its own residue class within the
    [int] range, the page id returned by [NewPgImp] together with a handle of
    instance [i] is non-negative and [GetBufferPoolManager] maps it to [i]. *)
Theorem new_page_routes_home (m : ParallelBufferPoolManager.t t)
    (page_id : page_id_t) (i : nat) (h : frame_id_t) :
  shards_ok (ParallelBufferPoolManager.instances_ m) →
  fst (NewPage m) = Some (page_id, (i, h)) →
  0 ≤ page_id ∧
  ParallelBufferPoolManager.GetBufferPoolManager (snd (NewPage m)) page_id = i.
Proof.
  intros Hok Hnew.
  change (NewPage m) with (ParallelBufferPoolManager.NewPgImp m) in *.
  pose proof (first_loop_spec (length (ParallelBufferPoolManager.instances_ m))
                (ParallelBufferPoolManager.startIdx m) m ltac:(lia)) as Hl.
  unfold ParallelBufferPoolManager.NewPgImp in *. rewrite Hnew in Hl.
  destruct Hl as (Hi & (bfi & Hbfi & Hg) & _ & _).
  destruct (Hok i bfi Hbfi) as (HN & Hidx & Hrange & Hmod).
  pose proof (NewPgImp_counter bfi) as Hc.
  change (NewPage bfi) with (NewPgImp bfi) in Hg. rewrite Hg in Hc.
  destruct Hc as [-> _].
  split; [lia|].
  unfold ParallelBufferPoolManager.GetBufferPoolManager. rewrite first_loop_length.
  unfold to_size_t. rewrite (Z.mod_small (next_page_id_ bfi) (2 ^ 64))
    by (unfold INT32_MAX in Hrange; lia).
  rewrite Hmod. apply Nat2Z.id.
Qed.

Lemma shards_ok_two_shards : shards_ok (ParallelBufferPoolManager.instances_ two_shards).
Proof.
  intros i bfi Hi.
  destruct i as [|[|i]]; [| |done]; injection Hi as <-; vm_compute; split_and!;
    try reflexivity; discriminate.
Qed.

Lemma new_page_routes_home_witness :
  0 ≤ 0 ∧ ParallelBufferPoolManager.GetBufferPoolManager (snd (NewPage two_shards)) 0 = 0%nat.
Proof.
  apply (new_page_routes_home two_shards 0 0%nat 0).
  - apply shards_ok_two_shards.
  - vm_compute; reflexivity.
Defined.

End parallel_routing_instances.

(** ** Write-back and reload *)

Section round_trip.
Import BufferPoolManagerInstance.
Implicit Types (s : t) (f g : frame_id_t) (p q : Page).

Lemma Unpin_empty (c : nat) f :
  LRUReplacer.Unpin (LRUReplacer.mk c []) f = LRUReplacer.mk c [f].
Proof.
  assert (Hc : LRUReplacer.cache_count (LRUReplacer.mk c []) f = false).
  { apply cache_count_false. unfold LRUReplacer.tracked. apply not_elem_of_nil. }
  unfold LRUReplacer.Unpin. rewrite Hc. by destruct (_ <=? _)%nat.
Qed.

Lemma FetchPgImp_miss_victim s f p (l : list frame_id_t) page_id :
  free_list_ s = [] → LRUReplacer.nodes (replacer_ s) = l ++ [f] →
  page_at (pages_ s) f = Some p → page_table_ s !! page_id = None →
  let disk' := if is_dirty_ p
               then WritePage (disk_manager_ s) (page_id_ p) (data_ p)
               else disk_manager_ s in
  FetchPgImp s page_id =
    (Some f,
     mk (pool_size_ s) (num_instances_ s) (instance_index_ s) (next_page_id_ s)
        (set_page (pages_ s) f (mkPage (ReadPage disk' page_id) page_id 1 false))
        (<[page_id := f]> (delete (page_id_ p) (page_table_ s)))
        [] (LRUReplacer.mk (LRUReplacer.capacity_ (replacer_ s)) l) disk').
Proof.
  intros Hfl Hnodes Hp Hpt. cbv zeta.
  assert (Hv : LRUReplacer.Victim (replacer_ s)
               = (Some f, LRUReplacer.mk (LRUReplacer.capacity_ (replacer_ s)) l)).
  { destruct (replacer_ s) as [c l0]. cbn [LRUReplacer.nodes] in Hnodes. subst l0.
    apply Victim_snoc. }
  unfold FetchPgImp. rewrite Hpt. unfold pick_frame. rewrite Hfl, Hv.
  set (s1 := with_replacer s _).
  assert (Hp1 : page_at (pages_ s1) f = Some p) by done.
  cbn [disk_manager_ with_page_table].
  rewrite (install_after_write_back s1 f p _ _ Hp1).
  assert (Hd : disk_manager_ (write_back s1 f)
               = if is_dirty_ p then WritePage (disk_manager_ s) (page_id_ p) (data_ p)
                 else disk_manager_ s).
  { unfold write_back. rewrite (get_page_Some _ _ _ Hp1). by destruct (is_dirty_ p). }
  rewrite Hd. subst s1.
  cbn [pool_size_ num_instances_ instance_index_ next_page_id_ pages_ page_table_
       free_list_ replacer_ with_replacer].
  by rewrite Hfl.
Qed.

(** Round trip through the disk. Let the only evictable frame [f] hold a dirty
    page [P] with bytes [B], with no free frame. Fetching another page [Q]
    evicts [P] and writes [B] to disk; after [Q] is unpinned, fetching [P]
    again evicts [Q] without a disk write and brings [B] back: the frame
    holds page [P] with the bytes [B], pin count 1 and a clear dirty flag. *)
Theorem evicted_page_reloads s f p (Q : page_id_t) :
  free_list_ s = [] → LRUReplacer.nodes (replacer_ s) = [f] →
  page_at (pages_ s) f = Some p → is_dirty_ p = true →
  page_table_ s !! Q = None → Q ≠ page_id_ p →
  let s1 := snd (FetchPgImp s Q) in
  let s2 := snd (UnpinPgImp s1 Q false) in
  let s3 := snd (FetchPgImp s2 (page_id_ p)) in
  fst (FetchPgImp s Q) = Some f ∧
  write_log (disk_manager_ s1) = (page_id_ p, data_ p) :: write_log (disk_manager_ s) ∧
  fst (UnpinPgImp s1 Q false) = true ∧
  fst (FetchPgImp s2 (page_id_ p)) = Some f ∧
  write_log (disk_manager_ s3) = write_log (disk_manager_ s1) ∧
  page_at (pages_ s3) f = Some (mkPage (data_ p) (page_id_ p) 1 false).
Proof.
  intros Hfl Hnodes Hp Hdirty HQ Hne. cbv zeta.
  rewrite (FetchPgImp_miss_victim s f p [] Q Hfl Hnodes Hp HQ). rewrite Hdirty.
  cbn [fst snd].
  set (disk1 := WritePage (disk_manager_ s) (page_id_ p) (data_ p)).
  set (pq := mkPage (ReadPage disk1 Q) Q 1 false).
  set (s1 := mk _ _ _ _ _ _ _ _ _).
  assert (Hpq : page_at (pages_ s1) f = Some pq)
    by (subst s1; cbn [pages_]; by apply page_at_set_page_eq with p).
  assert (Hres1 : resident s1 Q f pq).
  { split; [|done]. subst s1. cbn [page_table_]. apply lookup_insert_eq. }
  rewrite (UnpinPgImp_pos s1 Q false f pq Hres1) by (cbn; lia).
  cbn [fst snd pin_count_ pq]. cbv zeta.
  change (1 - 1 =? 0) with true. cbn [data_ page_id_ is_dirty_ orb].
  set (pq0 := mkPage (ReadPage disk1 Q) Q (1 - 1) false).
  set (s2 := with_replacer _ _).
  assert (Hfl2 : free_list_ s2 = []) by done.
  assert (Hn2 : LRUReplacer.nodes (replacer_ s2) = [] ++ [f]).
  { subst s2 s1. cbn [replacer_ with_replacer with_pages]. by rewrite Unpin_empty. }
  assert (Hp2 : page_at (pages_ s2) f = Some pq0).
  { subst s2. cbn [pages_ with_replacer with_pages]. by apply page_at_set_page_eq with pq. }
  assert (Hpt2 : page_table_ s2 !! page_id_ p = None).
  { subst s2 s1. cbn [page_table_ with_replacer with_pages].
    rewrite lookup_insert_ne by done. apply lookup_delete_eq. }
  rewrite (FetchPgImp_miss_victim s2 f pq0 [] (page_id_ p) Hfl2 Hn2 Hp2 Hpt2).
  cbn [fst snd is_dirty_ pq0 disk_manager_ pages_ write_log].
  assert (Hd2 : disk_manager_ s2 = disk1) by done.
  rewrite Hd2.
  assert (Hread : ReadPage disk1 (page_id_ p) = data_ p).
  { subst disk1. unfold ReadPage, WritePage. cbn [disk_pages]. by rewrite lookup_insert_eq. }
  rewrite Hread.
  split_and!; try done. by apply page_at_set_page_eq with pq0.
Qed.

Lemma evicted_page_reloads_witness :
  page_at
    (pages_ (snd (FetchPgImp (snd (UnpinPgImp (snd (FetchPgImp pool1_page0_dirty 7)) 7 false)) 0)))
    0
  = Some (mkPage (data_ (get_page (pages_ pool1_page0_dirty) 0)) 0 1 false).
Proof.
  pose proof (evicted_page_reloads pool1_page0_dirty 0
                (get_page (pages_ pool1_page0_dirty) 0) 7) as H.
  cbv zeta in H. destruct H as (_ & _ & _ & _ & _ & Hp).
  - vm_compute; reflexivity.
  - vm_compute; reflexivity.
  - vm_compute; reflexivity.
  - vm_compute; reflexivity.
  - vm_compute; reflexivity.
  - vm_compute. discriminate.
  - exact Hp.
Defined.

End round_trip.

(** ** The second revision of the instance *)

Section variant_theorems.
Import BufferPoolManagerInstance.
Implicit Types (s : t) (f g : frame_id_t) (p q : Page).







(** In the second revision [DeletePgImp] of an unpinned resident page returns
    the frame to the free list without telling the replacer and without
    clearing the dirty flag: a frame that was evictable is afterwards both in
    the free list and in the replacer. *)
Theorem variant_delete_keeps_frame_tracked s page_id f p :
  resident s page_id f p → pin_count_ p ≤ 0 → evictable s f →
  let s' := snd (InstanceVariant.DeletePgImp s page_id) in
  fst (InstanceVariant.DeletePgImp s page_id) = true ∧
  page_table_ s' !! page_id = None ∧
  free_list_ s' = free_list_ s ++ [f] ∧
  evictable s' f ∧
  page_at (pages_ s') f
    = Some (mkPage zero_data (page_id_ p) (pin_count_ p) (is_dirty_ p)).
Proof.
  intros [Hpt Hp] Hpin Hev. cbv zeta. unfold InstanceVariant.DeletePgImp.
  cbn [page_table_ pages_ with_disk]. rewrite Hpt, (get_page_Some _ _ _ Hp).
  destruct (Z.ltb_spec 0 (pin_count_ p)) as [?|_]; [lia|].
  cbn [fst snd page_table_ free_list_ pages_ with_free_list with_pages with_page_table
       with_disk].
  split_and!; try done.
  - apply lookup_delete_eq.
  - by apply page_at_set_page_eq with p.
Qed.

Lemma variant_delete_keeps_frame_tracked_witness :
  free_list_ (snd (InstanceVariant.DeletePgImp pool1_page0_dirty 0)) = [0] ∧
  evictable (snd (InstanceVariant.DeletePgImp pool1_page0_dirty 0)) 0.
Proof.
  pose proof (variant_delete_keeps_frame_tracked pool1_page0_dirty 0 0
                (get_page (pages_ pool1_page0_dirty) 0)) as H.
  cbv zeta in H. destruct H as (_ & _ & Hfl & Hev & _).
  - split; vm_compute; reflexivity.
  - vm_compute. discriminate.
  - unfold evictable, LRUReplacer.tracked. apply (bool_decide_unpack _).
    vm_compute. exact I.
  - split; [exact Hfl|exact Hev].
Defined.

End variant_theorems.

(** ** The constructor of the parallel manager *)

Section parallel_constructor.

Lemma fresh_instances_lookup (n pool_size : nat) (disk : DiskManager) (i : nat) bfi :
  ((λ i, BufferPoolManagerInstance.BufferPoolManagerInstance pool_size (Z.of_nat n)
           (Z.of_nat i) disk) <$> seq 0 n) !! i = Some bfi →
  (i < n)%nat ∧
  bfi = BufferPoolManagerInstance.BufferPoolManagerInstance pool_size (Z.of_nat n)
          (Z.of_nat i) disk.
Proof.
  rewrite list_lookup_fmap. intros Hi.
  destruct (seq 0 n !! i) as [k|] eqn:Hk; [|done].
  apply lookup_seq in Hk as [-> Hlt]. by injection Hi as <-.
Qed.

(** The constructor of the second revision builds a manager of
    [num_instances] instances with the cursor at instance 0; its
    [GetPoolSize] is [num_instances * pool_size], the sum of the capacities
    of the instances; and instance [i] has shard count [num_instances], index
    [i] and a counter starting at [i]. *)
Theorem ParallelVariant_constructor (n pool_size : nat) (disk : DiskManager) :
  (0 < n)%nat → Z.of_nat n ≤ INT32_MAX →
  let m := ParallelVariant.ParallelBufferPoolManager n pool_size disk in
  variant_wf m ∧ ParallelVariant.next_index_ m = 0%nat ∧
  length (ParallelVariant.instances_ m) = n ∧
  ParallelVariant.GetPoolSizeImp m = (n * pool_size)%nat ∧
  ParallelVariant.GetPoolSizeImp m = total_capacity (ParallelVariant.instances_ m) ∧
  shards_ok (ParallelVariant.instances_ m).
Proof.
  intros Hn Hmax. cbv zeta.
  assert (Hlen : length (ParallelVariant.instances_
                   (ParallelVariant.ParallelBufferPoolManager n pool_size disk)) = n).
  { cbn [ParallelVariant.instances_ ParallelVariant.ParallelBufferPoolManager].
    by rewrite length_fmap, length_seq. }
  destruct (GetPoolSize_second_revision n pool_size disk) as [Hsz Htot].
  split; [|split; [reflexivity|split; [exact Hlen|split; [exact Hsz|split; [exact Htot|]]]]].
  - split; [by rewrite Hlen|exact Hn].
  - intros i bfi Hi. rewrite Hlen.
    cbn [ParallelVariant.instances_ ParallelVariant.ParallelBufferPoolManager] in Hi.
    apply fresh_instances_lookup in Hi as [Hlt ->].
    cbn [BufferPoolManagerInstance.num_instances_
         BufferPoolManagerInstance.instance_index_
         BufferPoolManagerInstance.next_page_id_
         BufferPoolManagerInstance.BufferPoolManagerInstance].
    rewrite wrap32_small by (unfold INT32_MAX in *; lia).
    split_and!; [done|done|lia|lia|].
    apply Z.mod_small. lia.
Qed.

Lemma ParallelVariant_constructor_witness :
  ParallelVariant.GetPoolSizeImp (ParallelVariant.ParallelBufferPoolManager 3 4 new_DiskManager)
  = (3 * 4)%nat.
Proof.
  pose proof (ParallelVariant_constructor 3 4 new_DiskManager) as H.
  cbv zeta in H. destruct H as (_ & _ & _ & Hs & _).
  - lia.
  - vm_compute. discriminate.
  - exact Hs.
Defined.

End parallel_constructor.
